(** * Seller performance report (sales-bonus)

    A shallow embedding of the two JavaScript sources of the repository,

    - [src/main.js] (module [Src] below), and
    - [part_000], a second file that defines the same functions
      (module [Part000] below),

    each with its [groupBy], [calculateSimpleRevenue],
    [calculateBonusByProfit] and [analyzeSalesData], followed by the
    properties of these functions and of the report that [analyzeSalesData]
    returns.

    Modelling conventions.

    - A JavaScript number is an exact rational ([Q]): sums, products and
      quotients are exact, and there is no NaN, no infinity and no signed
      zero.  [+x.toFixed(2)] is decimal rounding of the exact value.
    - Plain objects used as dictionaries ([sellerIndex], [productIndex])
      are finite maps keyed by strings, read through [index_get]: a key
      that is no own property but names a member of [Object.prototype]
      ([constructor], [toString], [__proto__], ...) reads that member, which
      is truthy.  [products_sold] and the result of [groupBy], whose
      enumeration order is observable, are association lists in
      property-creation order, read through [obj_read] in the same way.
    - Where the code goes on with something that is not a value of this
      embedding (a cost that is NaN, a string stored as a quantity, an
      index object whose prototype was replaced), the completion is
      [Beyond]: what is returned then can depend on the engine (a sort
      whose comparator returns NaN), and nothing is stated of it.
    - The accumulator objects created by [analyzeSalesData] live in a heap
      component and are addressed by their position in the [sellerStats]
      array; the index object holds these references, so writes through
      [sellerIndex[...]] are writes to the array elements.
    - Identifiers (seller ids, skus) are strings, [sales_count] is a natural
      number, and the injected strategies are pure functions that return
      numbers.
    - [throw] is an error completion of a small state-and-error monad. *)

From Stdlib Require Import ZArith QArith Qround Qabs Lqa DecimalString.
From stdpp Require Import gmap strings list sorting.

Local Open Scope Q_scope.

(** ** Numbers *)

Abbreviation number := Q (only parsing).

(** Truthiness of a number: [!x] holds exactly for zero. *)
Definition falsy (x : number) : bool := Qeq_bool x 0.

(** The integer [n] for which [n / 100 - |x|] is as close to zero as
    possible, the larger one on a tie. *)
Definition nearest_hundredth (x : number) : Z :=
  Qfloor (Qabs x * 100 + (1 # 2)).

(** [+x.toFixed(2)]: [Number.prototype.toFixed] prints the sign, then the
    digits of [nearest_hundredth]; at [10^21] and above it prints the number
    itself.  The unary plus reads the string back. *)
Definition toFixed2 (x : number) : number :=
  if Qle_bool (inject_Z (10 ^ 21)) (Qabs x) then x
  else if Qle_bool 0 x then nearest_hundredth x # 100
  else (- nearest_hundredth x) # 100.

(** ** Input data *)

Module Seller.
Record t := mk { id : string; first_name : string; last_name : string }.
End Seller.

Module Product.
Record t := mk { sku : string; purchase_price : number }.
End Product.

Module Item.
Record t := mk
    { sku : string; quantity : number; sale_price : number; discount : number }.
End Item.

Module Purchase.
Record t := mk
    { seller_id : string; total_amount : number; items : list Item.t }.
End Purchase.

(** A property that is expected to hold an array: [Array.isArray] tells the
    two cases apart. *)
Inductive ArrayField (A : Type) :=
  | NotArray
  | IsArray (elements : list A).
Arguments NotArray {A}.
Arguments IsArray {A} elements.

Definition isArray {A} (f : ArrayField A) : bool :=
  match f with IsArray _ => true | NotArray => false end.

Definition elems {A} (f : ArrayField A) : list A :=
  match f with IsArray l => l | NotArray => [] end.

(** The first argument of [analyzeSalesData].  [DataFalsy] is [undefined],
    [null] or another falsy value.  A truthy value without array-valued
    properties (a number, a string, an empty object) is [DataObject] with
    three [NotArray] fields. *)
Inductive DataValue :=
  | DataFalsy
  | DataObject (sellers : ArrayField Seller.t)
               (products : ArrayField Product.t)
               (purchase_records : ArrayField Purchase.t).

Definition truthy_data (d : DataValue) : bool :=
  match d with DataFalsy => false | DataObject _ _ _ => true end.

Definition sellers (d : DataValue) : ArrayField Seller.t :=
  match d with DataObject s _ _ => s | DataFalsy => NotArray end.

Definition products (d : DataValue) : ArrayField Product.t :=
  match d with DataObject _ p _ => p | DataFalsy => NotArray end.

Definition purchase_records (d : DataValue) : ArrayField Purchase.t :=
  match d with DataObject _ _ r => r | DataFalsy => NotArray end.

(** ** Objects used as dictionaries with observable order *)

(** Own string-keyed properties in creation order. *)
Definition PropertyList (V : Type) : Type := list (string * V).

Fixpoint obj_get {V} (k : string) (o : PropertyList V) : option V :=
  match o with
  | [] => None
  | (k', v) :: o' => if String.eqb k k' then Some v else obj_get k o'
  end.

(** [o[k] = v]: an existing property keeps its place, a new one is created
    last. *)
Fixpoint obj_set {V} (k : string) (v : V) (o : PropertyList V) : PropertyList V :=
  match o with
  | [] => [(k, v)]
  | (k', v') :: o' =>
      if String.eqb k k' then (k', v) :: o' else (k', v') :: obj_set k v o'
  end.

(** An array index is the canonical decimal form of an integer below
    [2^32 - 1]. *)
Definition array_index (k : string) : option N :=
  match NilZero.uint_of_string k with
  | Some u =>
      let n := N.of_uint u in
      if String.eqb (NilZero.string_of_uint (N.to_uint n)) k && (n <? 2 ^ 32 - 1)%N
      then Some n else None
  | None => None
  end.

Fixpoint insert_index {V} (n : N) (e : string * V) (l : list (N * (string * V)))
  : list (N * (string * V)) :=
  match l with
  | [] => [(n, e)]
  | (m, e') :: l' =>
      if (n <=? m)%N then (n, e) :: l else (m, e') :: insert_index n e l'
  end.

(** Splits the properties into those named by an array index, in ascending
    index order, and the others, in creation order. *)
Fixpoint own_keys_split {V} (o : PropertyList V)
  : list (N * (string * V)) * list (string * V) :=
  match o with
  | [] => ([], [])
  | e :: o' =>
      let '(ixs, strs) := own_keys_split o' in
      match array_index e.1 with
      | Some n => (insert_index n e ixs, strs)
      | None => (ixs, e :: strs)
      end
  end.

(** [Object.entries(o)]: array-index keys first, ascending, then the other
    keys in creation order. *)
Definition Object_entries {V} (o : PropertyList V) : list (string * V) :=
  let '(ixs, strs) := own_keys_split o in (snd <$> ixs) ++ strs.

(** ** Plain objects and [Object.prototype] *)

(** The members that an object created by [{}] or by [Object.fromEntries]
    inherits from [Object.prototype]. *)
Definition Object_prototype : list string :=
  ["constructor"; "__defineGetter__"; "__defineSetter__"; "hasOwnProperty";
   "__lookupGetter__"; "__lookupSetter__"; "isPrototypeOf";
   "propertyIsEnumerable"; "toString"; "valueOf"; "__proto__";
   "toLocaleString"].

Definition inherited (k : string) : bool :=
  existsb (String.eqb k) Object_prototype.

(** A key that names no inherited member. *)
Definition plain (k : string) : Prop := inherited k = false.

(** What [o[k]] reads on a plain object: an own property; else an
    inherited member, which is a function (for [__proto__], the prototype
    object), so it is truthy and none of the values stored in [o]; else
    [undefined]. *)
Inductive Property (V : Type) :=
  | Own (v : V)
  | Member
  | Undefined.
Arguments Own {V} v.
Arguments Member {V}.
Arguments Undefined {V}.

Definition index_get {V} (o : gmap string V) (k : string) : Property V :=
  match o !! k with
  | Some v => Own v
  | None => if inherited k then Member else Undefined
  end.

Definition obj_read {V} (k : string) (o : PropertyList V) : Property V :=
  match obj_get k o with
  | Some v => Own v
  | None => if inherited k then Member else Undefined
  end.

(** ** Arrays *)

(** [Array.prototype.sort(compareFn)] is stable: [a] is kept before [b]
    unless [compareFn(a, b) > 0].  For a consistent comparator the result is
    unique; insertion from the right computes it. *)
Fixpoint sort_insert {A} (compareFn : A -> A -> number) (x : A) (l : list A) : list A :=
  match l with
  | [] => [x]
  | y :: l' =>
      if Qle_bool (compareFn x y) 0 then x :: l
      else y :: sort_insert compareFn x l'
  end.

Definition Array_sort {A} (compareFn : A -> A -> number) (l : list A) : list A :=
  foldr (sort_insert compareFn) [] l.

(** [.slice(0, n)] *)
Definition slice0 {A} (n : nat) (l : list A) : list A := take n l.

(** ** Accumulators and report entries *)

Module TopProduct.
Record t := mk { sku : string; quantity : number }.
End TopProduct.

(** The per-seller accumulator object.  [bonus] and [top_products] are
    absent ([None]) until the ranking loop assigns them. *)
Module Stats.
Record t := mk
    { id : string;
      name : string;
      revenue : number;
      profit : number;
      sales_count : nat;
      products_sold : PropertyList number;
      bonus : option number;
      top_products : option (list TopProduct.t) }.

Definition set_revenue (v : number) (s : t) : t :=
    mk (id s) (name s) v (profit s) (sales_count s) (products_sold s)
       (bonus s) (top_products s).
Definition set_profit (v : number) (s : t) : t :=
    mk (id s) (name s) (revenue s) v (sales_count s) (products_sold s)
       (bonus s) (top_products s).
Definition set_sales_count (v : nat) (s : t) : t :=
    mk (id s) (name s) (revenue s) (profit s) v (products_sold s)
       (bonus s) (top_products s).
Definition set_products_sold (v : PropertyList number) (s : t) : t :=
    mk (id s) (name s) (revenue s) (profit s) (sales_count s) v
       (bonus s) (top_products s).
Definition set_bonus (v : number) (s : t) : t :=
    mk (id s) (name s) (revenue s) (profit s) (sales_count s) (products_sold s)
       (Some v) (top_products s).
Definition set_top_products (v : list TopProduct.t) (s : t) : t :=
    mk (id s) (name s) (revenue s) (profit s) (sales_count s) (products_sold s)
       (bonus s) (Some v).
End Stats.

Module Report.
Record t := mk
    { seller_id : string;
      name : string;
      revenue : number;
      profit : number;
      sales_count : nat;
      top_products : option (list TopProduct.t);
      bonus : number }.
End Report.

(** ** Strategies and options *)

Definition RevenueFn : Type := Item.t -> Product.t -> number.
Definition BonusFn : Type := Z -> Z -> Stats.t -> number.

(** The value found under a property that should hold a function. *)
Inductive Slot (F : Type) :=
  | Falsy                 (* undefined, null, 0, ... *)
  | NotCallable           (* a truthy value that is not a function *)
  | Func (f : F).
Arguments Falsy {F}.
Arguments NotCallable {F}.
Arguments Func {F} f.

Definition truthy_slot {F} (s : Slot F) : bool :=
  match s with Falsy => false | _ => true end.

Definition is_function {F} (s : Slot F) : bool :=
  match s with Func _ => true | _ => false end.

(** The second argument of [analyzeSalesData]. *)
Inductive OptionsValue :=
  | OptFalsy                                   (* undefined, null, ... *)
  | OptPrimitive                               (* a truthy number, string, ... *)
  | OptFunction (r : Slot RevenueFn) (b : Slot BonusFn)  (* typeof = 'function' *)
  | OptObject (r : Slot RevenueFn) (b : Slot BonusFn).   (* typeof = 'object' *)

Definition truthy_options (o : OptionsValue) : bool :=
  match o with OptFalsy => false | _ => true end.

Definition typeof_object (o : OptionsValue) : bool :=
  match o with OptObject _ _ => true | _ => false end.

Definition calculateRevenue (o : OptionsValue) : Slot RevenueFn :=
  match o with OptFunction r _ | OptObject r _ => r | _ => Falsy end.

Definition calculateBonus (o : OptionsValue) : Slot BonusFn :=
  match o with OptFunction _ b | OptObject _ b => b | _ => Falsy end.

(** ** Heap, completions and the monad of effects *)

(** The three [throw new Error(...)] sites of the validator, named as in the
    specification, and the [TypeError] of calling what is not a function or
    reading a property of [undefined]. *)
Inductive Error := InvalidInput | MissingOptions | MissingStrategy | TypeError.

(** [Beyond]: the code goes on, with something that is not a value of this
    embedding. *)
Inductive Completion (A : Type) :=
  | Return (a : A)
  | Throw (e : Error)
  | Beyond.
Arguments Return {A} a.
Arguments Throw {A} e.
Arguments Beyond {A}.

(** [data] is the caller's dataset; [sellerStats] is the array of
    accumulator objects of the running call. *)
Record Heap := mkHeap { data : DataValue; sellerStats : list Stats.t }.

Definition M (A : Type) : Type := Heap -> Completion A * Heap.

#[global] Instance M_ret : MRet M := fun A a h => (Return a, h).
#[global] Instance M_bind : MBind M := fun A B k m h =>
  match m h with
  | (Return a, h') => k a h'
  | (Throw e, h') => (Throw e, h')
  | (Beyond, h') => (Beyond, h')
  end.

Definition throw {A} (e : Error) : M A := fun h => (Throw e, h).

Definition beyond {A} : M A := fun h => (Beyond, h).

Definition getData : M DataValue := fun h => (Return (data h), h).
Definition getStats : M (list Stats.t) := fun h => (Return (sellerStats h), h).
Definition setStats (l : list Stats.t) : M unit :=
  fun h => (Return tt, mkHeap (data h) l).

(** Reading through a reference; a dangling one reads [undefined]. *)
Definition deref (ref : nat) : M Stats.t :=
  l ← getStats;
  match l !! ref with
  | Some s => mret s
  | None => throw TypeError
  end.

(** Assignment to properties of the object behind a reference. *)
Definition update (ref : nat) (f : Stats.t -> Stats.t) : M unit :=
  s ← deref ref;
  l ← getStats;
  setStats (<[ref := f s]> l).

Fixpoint forEach {A} (l : list A) (callback : A -> M unit) : M unit :=
  match l with
  | [] => mret tt
  | x :: l' => _ ← callback x; forEach l' callback
  end.

Fixpoint mapM {A B} (l : list A) (callback : A -> M B) : M (list B) :=
  match l with
  | [] => mret []
  | x :: l' => y ← callback x; ys ← mapM l' callback; mret (y :: ys)
  end.

(** Calling the value of a strategy slot. *)
Definition call_revenue (f : Slot RevenueFn) (item : Item.t) (product : Product.t)
  : M number :=
  match f with Func g => mret (g item product) | _ => throw TypeError end.

(** Calling the value of the revenue slot on an inherited member in place
    of a product: what is not a function cannot be called, and what a
    function makes of that argument is not described. *)
Definition call_revenue_on_member (f : Slot RevenueFn) : M number :=
  match f with Func _ => beyond | _ => throw TypeError end.

Definition call_bonus (f : Slot BonusFn) (index total : Z) (seller : Stats.t)
  : M number :=
  match f with Func g => mret (g index total seller) | _ => throw TypeError end.

Definition throw_if (c : bool) (e : Error) : M unit :=
  if c then throw e else mret tt.

(** [sellerStats.forEach((seller, index) => ...)]: the callback receives the
    reference stored at each index, and the index. *)
Definition forEachStats (callback : nat -> Z -> M unit) : M unit :=
  l ← getStats;
  forEach (seq 0 (length l)) (fun i => callback i (Z.of_nat i)).

(** [Object.fromEntries(entries)]: every entry becomes an own property, and
    a later entry overrides an earlier one with the same key. *)
Definition fromEntries {V} (entries : list (string * V)) : gmap string V :=
  foldl (fun acc kv => <[kv.1 := kv.2]> acc) ∅ entries.

(** [entries.reduce((acc, [k, v]) => { acc[k] = v; return acc; }, {})]: the
    assignment does the same, except under the key [__proto__], where it
    replaces the prototype of [acc] by the object [v]: [acc] is then no
    dictionary of the entries ([None]). *)
Definition reduce_to_object {V} (entries : list (string * V))
  : option (gmap string V) :=
  if existsb (fun kv => String.eqb kv.1 "__proto__") entries then None
  else Some (foldl (fun acc kv => <[kv.1 := kv.2]> acc) ∅ entries).

(** ** Code that is the same in both sources *)

(** The callback of [data.sellers.map(...)] creating an accumulator
    (main.js 76-83, part_000 69-76). *)
Definition newStats (seller : Seller.t) : Stats.t :=
  Stats.mk (Seller.id seller)
           (Seller.first_name seller +:+ " " +:+ Seller.last_name seller)
           0 0 0 [] None None.

(** The two statements
    [if (!sold[sku]) sold[sku] = 0;  sold[sku] += quantity;]
    (main.js 119-120, part_000 107-110), by cases on what [sold[sku]] reads
    before them.  A missing or zero entry is first set to [0].  An inherited
    member is truthy, so nothing is reset, and [+=] appends the quantity to
    the text of the member: under [__proto__] the setter ignores the string
    and [sold] stays as it is; under the name of a method the string becomes
    an own property, which is no quantity ([None]). *)
Definition count_sold (sku : string) (quantity : number) (sold : PropertyList number)
  : option (PropertyList number) :=
  match obj_read sku sold with
  | Undefined => Some (obj_set sku (0 + quantity) (obj_set sku 0 sold))
  | Own v =>
      Some (if falsy v then obj_set sku (0 + quantity) (obj_set sku 0 sold)
            else obj_set sku (v + quantity) sold)
  | Member => if String.eqb sku "__proto__" then Some sold else None
  end.

(** The same two statements on the accumulator behind a reference. *)
Definition record_sold (seller : nat) (item : Item.t) : M unit :=
  s ← deref seller;
  match count_sold (Item.sku item) (Item.quantity item) (Stats.products_sold s) with
  | Some sold => update seller (Stats.set_products_sold sold)
  | None => beyond
  end.

(** The callback of [record.items.forEach(...)] (main.js 104-121, part_000
    97-111) when [seller] is an inherited member, read by
    [sellerIndex[record.seller_id]] for a seller_id that names one.  The
    assignments to [seller.revenue] and [seller.profit] write on that
    member, outside the accumulators; [seller.products_sold] is [undefined],
    and reading a property of it is a [TypeError]. *)
Definition on_item_of_member (productIndex : gmap string Product.t)
    (calculateRevenue : Slot RevenueFn) (item : Item.t) : M unit :=
  match index_get productIndex (Item.sku item) with
  | Undefined => mret tt
  | Own product =>
      _ ← call_revenue calculateRevenue item product;
      throw TypeError
  | Member =>
      _ ← call_revenue_on_member calculateRevenue;
      throw TypeError
  end.

(** [(a, b) => b.profit - a.profit] *)
Definition by_profit (a b : Stats.t) : number := Stats.profit b - Stats.profit a.

(** [(a, b) => b.quantity - a.quantity] *)
Definition by_quantity (a b : TopProduct.t) : number :=
  TopProduct.quantity b - TopProduct.quantity a.

(** [Object.entries(sold).map(([sku, quantity]) => ({ sku, quantity }))
      .sort((a, b) => b.quantity - a.quantity).slice(0, 10)]
    (main.js 131-134, part_000 123-126). *)
Definition topProducts (sold : PropertyList number) : list TopProduct.t :=
  slice0 10
    (Array_sort by_quantity
       ((fun e => TopProduct.mk e.1 e.2) <$> Object_entries sold)).

(** The callback of the final [sellerStats.map(...)]
    (main.js 138-146, part_000 130-138).  [s.bonus.toFixed] on an absent
    bonus is a [TypeError]. *)
Definition reportEntry (s : Stats.t) : M Report.t :=
  match Stats.bonus s with
  | Some bonus =>
      mret (Report.mk (Stats.id s) (Stats.name s)
              (toFixed2 (Stats.revenue s)) (toFixed2 (Stats.profit s))
              (Stats.sales_count s) (Stats.top_products s) (toFixed2 bonus))
  | None => throw TypeError
  end.

(** ** src/main.js *)

Module Src.

(** main.js 22-27 *)
Definition calculateSimpleRevenue (purchase : Item.t) (_product : Product.t) : number :=
  let multiplier := 1 - Item.discount purchase / 100 in
  Item.sale_price purchase * Item.quantity purchase * multiplier.

(** main.js 34-48 *)
Definition calculateBonusByProfit (index total : Z) (seller : Stats.t) : number :=
  let isFirst := (index =? 0)%Z in
  let isSecondOrThird := ((index =? 1) || (index =? 2))%Z in
  let isLast := (index =? total - 1)%Z in
  let pct : number :=
    if isFirst then 15
    else if isSecondOrThird then 10
    else if isLast then 0
    else 5 in
  Stats.profit seller * (pct / 100).

(** The callback of [record.items.forEach(...)], main.js 104-121. *)
Definition on_item (productIndex : gmap string Product.t)
    (calculateRevenue : Slot RevenueFn) (seller : nat) (item : Item.t) : M unit :=
  match index_get productIndex (Item.sku item) with
  | Undefined => mret tt
  | Member =>
      (* [product.purchase_price] is [undefined]: [costItem] is NaN *)
      _ ← call_revenue_on_member calculateRevenue;
      beyond
  | Own product =>
      revenueItem ← call_revenue calculateRevenue item product;
      let costItem := Product.purchase_price product * Item.quantity item in
      _ ← update seller (fun s => Stats.set_revenue (Stats.revenue s + revenueItem) s);
      _ ← update seller
            (fun s => Stats.set_profit (Stats.profit s + (revenueItem - costItem)) s);
      record_sold seller item
  end.

(** The callback of [data.purchase_records.forEach(...)], main.js 97-122. *)
Definition on_record (sellerIndex : gmap string nat)
    (productIndex : gmap string Product.t)
    (calculateRevenue : Slot RevenueFn) (record : Purchase.t) : M unit :=
  match index_get sellerIndex (Purchase.seller_id record) with
  | Undefined => mret tt
  | Member =>
      (* [seller.sales_count += 1] writes a NaN on the member *)
      forEach (Purchase.items record) (on_item_of_member productIndex calculateRevenue)
  | Own seller =>
      _ ← update seller (fun s => Stats.set_sales_count (Stats.sales_count s + 1)%nat s);
      forEach (Purchase.items record) (on_item productIndex calculateRevenue seller)
  end.

(** The callback of [sellerStats.forEach((seller, index) => ...)],
    main.js 128-135. *)
Definition on_ranked (calculateBonus : Slot BonusFn) (seller : nat) (index : Z)
  : M unit :=
  s ← deref seller;
  l ← getStats;
  bonus ← call_bonus calculateBonus index (Z.of_nat (length l)) s;
  _ ← update seller (Stats.set_bonus bonus);
  update seller
    (fun s => Stats.set_top_products (topProducts (Stats.products_sold s)) s).

(** main.js 55-147.  The argument [data] is read from the heap. *)
Definition analyzeSalesData (options : OptionsValue) : M (list Report.t) :=
  data ← getData;
  _ ← throw_if
        (negb (truthy_data data)
         || negb (isArray (sellers data)) || (length (elems (sellers data)) =? 0)%nat
         || negb (isArray (products data)) || (length (elems (products data)) =? 0)%nat
         || negb (isArray (purchase_records data))
         || (length (elems (purchase_records data)) =? 0)%nat)
        InvalidInput;
  _ ← throw_if (negb (truthy_options options)) MissingOptions;
  let calculateRevenue := calculateRevenue options in
  let calculateBonus := calculateBonus options in
  _ ← throw_if (negb (truthy_slot calculateRevenue) || negb (truthy_slot calculateBonus))
        MissingStrategy;
  _ ← setStats (newStats <$> elems (sellers data));
  sellerStats ← getStats;
  match reduce_to_object (imap (fun ref s => (Stats.id s, ref)) sellerStats),
        reduce_to_object ((fun p => (Product.sku p, p)) <$> elems (products data))
  with
  | Some sellerIndex, Some productIndex =>
      _ ← forEach (elems (purchase_records data))
            (on_record sellerIndex productIndex calculateRevenue);
      l ← getStats;
      _ ← setStats (Array_sort by_profit l);
      _ ← forEachStats (on_ranked calculateBonus);
      l ← getStats;
      mapM l reportEntry
  | _, _ => beyond
  end.

End Src.

(** ** The second source file (part_000) *)

Module Part000.

(** part_000 22-26 *)
Definition calculateSimpleRevenue (purchase : Item.t) (_product : Product.t) : number :=
  let discountMultiplier := 1 - Item.discount purchase / 100 in
  Item.sale_price purchase * Item.quantity purchase * discountMultiplier.

(** part_000 33-40 *)
Definition calculateBonusByProfit (index total : Z) (seller : Stats.t) : number :=
  let profit := Stats.profit seller in
  if (index =? 0)%Z then profit * 0.15
  else if ((index =? 1) || (index =? 2))%Z then profit * 0.10
  else if (index =? total - 1)%Z then 0
  else profit * 0.05.

(** The callback of [record.items.forEach(...)], part_000 97-111. *)
Definition on_item (productIndex : gmap string Product.t)
    (calculateRevenue : Slot RevenueFn) (seller : nat) (item : Item.t) : M unit :=
  match index_get productIndex (Item.sku item) with
  | Undefined => mret tt
  | Member =>
      (* [product.purchase_price] is [undefined]: [cost] is NaN *)
      _ ← call_revenue_on_member calculateRevenue;
      beyond
  | Own product =>
      let cost := Product.purchase_price product * Item.quantity item in
      revenueItem ← call_revenue calculateRevenue item product;
      let profitItem := revenueItem - cost in
      _ ← update seller (fun s => Stats.set_profit (Stats.profit s + profitItem) s);
      record_sold seller item
  end.

(** The callback of [data.purchase_records.forEach(...)], part_000 87-112. *)
Definition on_record (sellerIndex : gmap string nat)
    (productIndex : gmap string Product.t)
    (calculateRevenue : Slot RevenueFn) (record : Purchase.t) : M unit :=
  match index_get sellerIndex (Purchase.seller_id record) with
  | Undefined => mret tt
  | Member =>
      (* [seller.sales_count] and [seller.revenue] become NaN on the member *)
      forEach (Purchase.items record) (on_item_of_member productIndex calculateRevenue)
  | Own seller =>
      _ ← update seller (fun s => Stats.set_sales_count (Stats.sales_count s + 1)%nat s);
      _ ← update seller
            (fun s => Stats.set_revenue (Stats.revenue s + Purchase.total_amount record) s);
      forEach (Purchase.items record) (on_item productIndex calculateRevenue seller)
  end.

(** The callback of [sellerStats.forEach((seller, index) => ...)],
    part_000 119-127. *)
Definition on_ranked (calculateBonus : Slot BonusFn) (totalSellers : Z)
    (seller : nat) (index : Z) : M unit :=
  s ← deref seller;
  rawBonus ← call_bonus calculateBonus index totalSellers s;
  _ ← update seller (Stats.set_bonus (toFixed2 rawBonus));
  update seller
    (fun s => Stats.set_top_products (topProducts (Stats.products_sold s)) s).

(** part_000 47-139.  The argument [data] is read from the heap. *)
Definition analyzeSalesData (options : OptionsValue) : M (list Report.t) :=
  data ← getData;
  _ ← throw_if
        (negb (truthy_data data)
         || negb (isArray (sellers data)) || (length (elems (sellers data)) =? 0)%nat
         || negb (isArray (products data)) || (length (elems (products data)) =? 0)%nat
         || negb (isArray (purchase_records data))
         || (length (elems (purchase_records data)) =? 0)%nat)
        InvalidInput;
  _ ← throw_if (negb (truthy_options options) || negb (typeof_object options))
        MissingOptions;
  let calculateRevenue := calculateRevenue options in
  let calculateBonus := calculateBonus options in
  _ ← throw_if
        (negb (truthy_slot calculateRevenue) || negb (truthy_slot calculateBonus)
         || negb (is_function calculateRevenue) || negb (is_function calculateBonus))
        MissingStrategy;
  _ ← setStats (newStats <$> elems (sellers data));
  sellerStats ← getStats;
  let sellerIndex :=
    fromEntries (imap (fun ref s => (Stats.id s, ref)) sellerStats) in
  let productIndex :=
    fromEntries ((fun p => (Product.sku p, p)) <$> elems (products data)) in
  _ ← forEach (elems (purchase_records data))
        (on_record sellerIndex productIndex calculateRevenue);
  l ← getStats;
  _ ← setStats (Array_sort by_profit l);
  l ← getStats;
  let totalSellers := Z.of_nat (length l) in
  _ ← forEachStats (on_ranked calculateBonus totalSellers);
  l ← getStats;
  mapM l reportEntry.

End Part000.

(** ** The two sources side by side *)

Inductive SourceFile := main_js | part_000.

Definition analyzeSalesData (f : SourceFile) : OptionsValue -> M (list Report.t) :=
  match f with
  | main_js => Src.analyzeSalesData
  | part_000 => Part000.analyzeSalesData
  end.

Definition calculateBonusByProfit (f : SourceFile) : BonusFn :=
  match f with
  | main_js => Src.calculateBonusByProfit
  | part_000 => Part000.calculateBonusByProfit
  end.

Definition calculateSimpleRevenue (f : SourceFile) : RevenueFn :=
  match f with
  | main_js => Src.calculateSimpleRevenue
  | part_000 => Part000.calculateSimpleRevenue
  end.

Definition on_item (f : SourceFile)
  : gmap string Product.t -> Slot RevenueFn -> nat -> Item.t -> M unit :=
  match f with main_js => Src.on_item | part_000 => Part000.on_item end.

Definition on_record (f : SourceFile)
  : gmap string nat -> gmap string Product.t -> Slot RevenueFn -> Purchase.t -> M unit :=
  match f with main_js => Src.on_record | part_000 => Part000.on_record end.

(** The ranking callback with the seller count it is given: main.js reads
    [sellerStats.length] in the callback, part_000 before the loop. *)
Definition on_ranked (f : SourceFile) (calculateBonus : Slot BonusFn) (total : Z)
  : nat -> Z -> M unit :=
  match f with
  | main_js => Src.on_ranked calculateBonus
  | part_000 => Part000.on_ranked calculateBonus total
  end.

(** The dataset object with its three arrays. *)
Definition dataset (ss : list Seller.t) (ps : list Product.t) (rs : list Purchase.t)
  : DataValue :=
  DataObject (IsArray ss) (IsArray ps) (IsArray rs).

(** The options object holding two functions. *)
Definition strategies (calcRevenue : RevenueFn) (calcBonus : BonusFn) : OptionsValue :=
  OptObject (Func calcRevenue) (Func calcBonus).

(** The shape contract of the dataset: three non-empty arrays. *)
Definition well_formed (d : DataValue) : Prop :=
  match d with
  | DataObject (IsArray ss) (IsArray ps) (IsArray rs) => ss ≠ [] ∧ ps ≠ [] ∧ rs ≠ []
  | _ => False
  end.

(** [typeof options === 'object'] for a truthy value. *)
Definition is_object (o : OptionsValue) : Prop := ∃ r b, o = OptObject r b.

(** [typeof slot === 'function'] *)
Definition invokable {F} (s : Slot F) : Prop := ∃ g, s = Func g.

(** The two index objects as both sources build them. *)
Definition sellerIndexOf (l : list Stats.t) : gmap string nat :=
  fromEntries (imap (fun ref s => (Stats.id s, ref)) l).

Definition productIndexOf (ps : list Product.t) : gmap string Product.t :=
  fromEntries ((fun p => (Product.sku p, p)) <$> ps).

(** ** What the loops compute, as functions on the accumulators *)

(** [products_sold] after the two statements of [count_sold], where they
    store a quantity or nothing. *)
Definition add_sold (sku : string) (quantity : number) (sold : PropertyList number)
  : PropertyList number :=
  default sold (count_sold sku quantity sold).

(** One resolved item, on the accumulator of its seller. *)
Definition item_effect (f : SourceFile) (calc : RevenueFn)
    (product : Product.t) (item : Item.t) (s : Stats.t) : Stats.t :=
  let revenueItem := calc item product in
  let cost := Product.purchase_price product * Item.quantity item in
  let s1 :=
    match f with
    | main_js => Stats.set_revenue (Stats.revenue s + revenueItem) s
    | part_000 => s
    end in
  let s2 := Stats.set_profit (Stats.profit s1 + (revenueItem - cost)) s1 in
  Stats.set_products_sold
    (add_sold (Item.sku item) (Item.quantity item) (Stats.products_sold s2)) s2.

Definition item_step (f : SourceFile) (calc : RevenueFn)
    (productIndex : gmap string Product.t) (s : Stats.t) (item : Item.t) : Stats.t :=
  match productIndex !! Item.sku item with
  | Some product => item_effect f calc product item s
  | None => s
  end.

(** One record, on the accumulator of its seller. *)
Definition record_effect (f : SourceFile) (calc : RevenueFn)
    (productIndex : gmap string Product.t) (s : Stats.t) (record : Purchase.t)
  : Stats.t :=
  let s1 := Stats.set_sales_count (Stats.sales_count s + 1)%nat s in
  let s2 :=
    match f with
    | main_js => s1
    | part_000 => Stats.set_revenue (Stats.revenue s1 + Purchase.total_amount record) s1
    end in
  foldl (item_step f calc productIndex) s2 (Purchase.items record).

Definition record_step (f : SourceFile) (calc : RevenueFn)
    (sellerIndex : gmap string nat) (productIndex : gmap string Product.t)
    (l : list Stats.t) (record : Purchase.t) : list Stats.t :=
  match sellerIndex !! Purchase.seller_id record with
  | Some ref => alter (fun s => record_effect f calc productIndex s record) ref l
  | None => l
  end.

(** The accumulators when the aggregation loop is over. *)
Definition aggregated (f : SourceFile) (calc : RevenueFn)
    (ss : list Seller.t) (ps : list Product.t) (rs : list Purchase.t) : list Stats.t :=
  let l := newStats <$> ss in
  foldl (record_step f calc (sellerIndexOf l) (productIndexOf ps)) l rs.

(** The bonus as it is stored on the accumulator. *)
Definition stored_bonus (f : SourceFile) (raw : number) : number :=
  match f with main_js => raw | part_000 => toFixed2 raw end.

Definition ranked_seller (f : SourceFile) (calcBonus : BonusFn) (total : Z)
    (index : nat) (s : Stats.t) : Stats.t :=
  Stats.set_top_products (topProducts (Stats.products_sold s))
    (Stats.set_bonus (stored_bonus f (calcBonus (Z.of_nat index) total s)) s).

(** The accumulators when the ranking loop is over. *)
Definition ranked (f : SourceFile) (calcRevenue : RevenueFn) (calcBonus : BonusFn)
    (ss : list Seller.t) (ps : list Product.t) (rs : list Purchase.t) : list Stats.t :=
  let sorted := Array_sort by_profit (aggregated f calcRevenue ss ps rs) in
  imap (ranked_seller f calcBonus (Z.of_nat (length sorted))) sorted.

(** The report entry of an accumulator that carries a bonus. *)
Definition entry_of (s : Stats.t) (bonus : number) : Report.t :=
  Report.mk (Stats.id s) (Stats.name s)
    (toFixed2 (Stats.revenue s)) (toFixed2 (Stats.profit s))
    (Stats.sales_count s) (Stats.top_products s) (toFixed2 bonus).

Definition report_of (f : SourceFile) (calcRevenue : RevenueFn) (calcBonus : BonusFn)
    (ss : list Seller.t) (ps : list Product.t) (rs : list Purchase.t) : list Report.t :=
  let sorted := Array_sort by_profit (aggregated f calcRevenue ss ps rs) in
  imap (fun index s =>
          let s' := ranked_seller f calcBonus (Z.of_nat (length sorted)) index s in
          entry_of s' (stored_bonus f (calcBonus (Z.of_nat index)
                                         (Z.of_nat (length sorted)) s)))
       sorted.

(** Every reference held by the index points into an array of [n]
    accumulators. *)
Definition refs_valid (sellerIndex : gmap string nat) (n : nat) : Prop :=
  ∀ k ref, sellerIndex !! k = Some ref → (ref < n)%nat.

(** The shape of both comparators, [(a, b) => key(b) - key(a)], and the
    order it sorts into. *)
Definition descending {A} (key : A → Q) (a b : A) : Q := key b - key a.

Definition not_below {A} (key : A → Q) (a b : A) : Prop := key b <= key a.

(** ** Reference quantities of the report *)

(** The billed revenue of some records: their [total_amount]s, added in
    input order. *)
Definition billed (records : list Purchase.t) : number :=
  foldl (fun acc r => acc + Purchase.total_amount r) 0 records.

(** The itemised revenue of some records: the revenue strategy's results
    for the items whose sku is known, added in input order. *)
Definition itemised (calc : RevenueFn) (productIndex : gmap string Product.t)
    (records : list Purchase.t) : number :=
  foldl (fun acc r =>
           foldl (fun acc item =>
                    match productIndex !! Item.sku item with
                    | Some product => acc + calc item product
                    | None => acc
                    end) acc (Purchase.items r))
        0 records.


(** A computation that leaves the caller's dataset alone and can only fail
    with a [TypeError]. *)
Definition well_behaved {A} (m : M A) : Prop :=
  ∀ h, data (m h).2 = data h ∧ ∀ e, (m h).1 = Throw e → e = TypeError.

(** ** Sample data *)

Definition alexey : Seller.t := Seller.mk "seller_1" "Alexey" "Petrov".
Definition mikhail : Seller.t := Seller.mk "seller_2" "Mikhail" "Nikitin".
Definition chair : Product.t := Product.mk "SKU_001" 50.
Definition lamp : Product.t := Product.mk "SKU_002" 10.

(** One chair sold by Alexey at 100 with a 10% discount, billed 100. *)
Definition discounted_sale : Purchase.t :=
  Purchase.mk "seller_1" 100 [Item.mk "SKU_001" 1 100 10].

(** Mikhail's sale: lamps, a chair and an item that is not in the catalogue. *)
Definition mixed_sale : Purchase.t :=
  Purchase.mk "seller_2" 150
    [Item.mk "SKU_002" 3 20 0; Item.mk "SKU_001" 1 90 0; Item.mk "SKU_404" 2 5 0].

(** A sale attributed to nobody in the seller list. *)
Definition orphan_sale : Purchase.t :=
  Purchase.mk "seller_9" 60 [Item.mk "SKU_002" 3 20 0].

Definition one_seller_data : DataValue :=
  dataset [alexey] [chair] [discounted_sale].

(** A bonus strategy that pays 12.3456 to everybody. *)
Definition flat_bonus : BonusFn := fun _ _ _ => 12.3456.

(** An accumulator with a profit of 200, as the bonus strategies see it. *)
Definition profit_200 : Stats.t :=
  Stats.mk "seller_1" "Alexey Petrov" 500 200 3 [("SKU_001", 4)] None None.

(** A dataset whose only sale resolves to no seller. *)
Definition orphan_data : DataValue := dataset [alexey] [chair] [orphan_sale].

(** ** groupBy (main.js 7-14, part_000 7-14) *)

(** The reducer of [groupBy]:
    [const key = keyFn(item); if (!acc[key]) acc[key] = []; acc[key].push(item);]
    by cases on what [acc[key]] reads before it: a missing group is created
    empty, and the item is pushed at the end of its group.  An inherited
    member is truthy and has no [push]: calling it is a [TypeError]. *)
Definition group_push {A} (keyFn : A -> string) (acc : PropertyList (list A))
    (item : A) : Completion (PropertyList (list A)) :=
  let key := keyFn item in
  match obj_read key acc with
  | Undefined => Return (obj_set key [item] (obj_set key [] acc))
  | Own group => Return (obj_set key (group ++ [item]) acc)
  | Member => Throw TypeError
  end.

(** [array.reduce(reducer, {})]; an exception of the reducer ends the
    [reduce]. *)
Definition groupBy {A} (array : list A) (keyFn : A -> string)
  : Completion (PropertyList (list A)) :=
  foldl (fun acc item =>
           match acc with
           | Return groups => group_push keyFn groups item
           | Throw e => Throw e
           | Beyond => Beyond
           end)
        (Return []) array.

(** The groups when every push returns. *)
Definition group_add {A} (keyFn : A -> string) (acc : PropertyList (list A))
    (item : A) : PropertyList (list A) :=
  let key := keyFn item in
  match obj_get key acc with
  | None => obj_set key [item] (obj_set key [] acc)
  | Some group => obj_set key (group ++ [item]) acc
  end.

Definition grouped {A} (array : list A) (keyFn : A -> string)
  : PropertyList (list A) :=
  foldl (group_add keyFn) [] array.

(** ** Identifiers that name no inherited member *)

Definition plain_record (r : Purchase.t) : Prop :=
  plain (Purchase.seller_id r)
  ∧ Forall (fun item => plain (Item.sku item)) (Purchase.items r).

(** No identifier of the dataset names a member of [Object.prototype]. *)
Definition plain_dataset (ss : list Seller.t) (ps : list Product.t)
    (rs : list Purchase.t) : Prop :=
  Forall (fun s => plain (Seller.id s)) ss
  ∧ Forall (fun p => plain (Product.sku p)) ps
  ∧ Forall plain_record rs.

(** A sale attributed to [constructor], a name that every plain object
    inherits, of a chair that is in the catalogue. *)
Definition constructor_sale : Purchase.t :=
  Purchase.mk "constructor" 100 [Item.mk "SKU_001" 1 100 10].


(** ** Reference quantities of the further properties *)

(** The margin of some records: for each item whose sku is known, the
    revenue strategy's result minus the cost of the item, added in input
    order. *)
Definition margin (calc : RevenueFn) (productIndex : gmap string Product.t)
    (records : list Purchase.t) : number :=
  foldl (fun acc r =>
           foldl (fun acc item =>
                    match productIndex !! Item.sku item with
                    | Some product =>
                        acc + (calc item product
                               - Product.purchase_price product * Item.quantity item)
                    | None => acc
                    end) acc (Purchase.items r))
        0 records.

(** The items of some records, in input order, that are sales of one sku of
    the catalogue. *)
Definition sales_of (sku : string) (productIndex : gmap string Product.t)
    (records : list Purchase.t) : list Item.t :=
  filter (fun item => Item.sku item = sku ∧ is_Some (productIndex !! sku))
         (records ≫= Purchase.items).

(** The quantities of some items, added in input order. *)
Definition total_quantity (items : list Item.t) : number :=
  foldl (fun acc item => acc + Item.quantity item) 0 items.

(** Two accumulators that agree on everything but the revenue. *)
Definition same_but_revenue (s1 s2 : Stats.t) : Prop :=
  s2 = Stats.set_revenue (Stats.revenue s2) s1.

(** Two report entries that agree on everything but the revenue. *)
Definition same_entry_but_revenue (e1 e2 : Report.t) : Prop :=
  e2 = Report.mk (Report.seller_id e1) (Report.name e1) (Report.revenue e2)
         (Report.profit e1) (Report.sales_count e1) (Report.top_products e1)
         (Report.bonus e1).

(** A listing in which one id occurs three times. *)
Definition repeated_sellers : list Seller.t := [mikhail; alexey; mikhail].

(** The distinct elements of a list, in the order in which they first
    occur. *)
Definition first_occurrences (ks : list string) : list string :=
  foldl (fun seen k => if decide (k ∈ seen) then seen else seen ++ [k]) [] ks.

(** [sold] tallies the known items of [items]: one property per sku sold,
    created at its first sale and holding the total quantity. *)
Definition tallies (productIndex : gmap string Product.t) (items : list Item.t)
    (sold : PropertyList number) : Prop :=
  NoDup sold.*1
  ∧ sold.*1
    = first_occurrences
        (Item.sku <$> filter (fun item => is_Some (productIndex !! Item.sku item))
                        items)
  ∧ ∀ sku,
      let sales := filter (fun item => Item.sku item = sku ∧ is_Some (productIndex !! sku))
                     items in
      match obj_get sku sold with
      | None => sales = []
      | Some v => sales ≠ [] ∧ v == total_quantity sales
      end.


(** * Lemmas *)

(** ** Running the monad *)

Lemma bind_ok {A B} (m : M A) (k : A → M B) h a h' :
  m h = (Return a, h') → (m ≫= k) h = k a h'.
Proof. intros E. unfold mbind, M_bind. by rewrite E. Qed.

Lemma bind_throw {A B} (m : M A) (k : A → M B) h e h' :
  m h = (Throw e, h') → (m ≫= k) h = (Throw e, h').
Proof. intros E. unfold mbind, M_bind. by rewrite E. Qed.

Lemma bind_beyond {A B} (m : M A) (k : A → M B) h h' :
  m h = (Beyond, h') → (m ≫= k) h = (Beyond, h').
Proof. intros E. unfold mbind, M_bind. by rewrite E. Qed.

(** A bind that returns did so in both of its parts. *)
Lemma bind_returns {A B} (m : M A) (k : A → M B) h b h' :
  (m ≫= k) h = (Return b, h') →
  ∃ a h1, m h = (Return a, h1) ∧ k a h1 = (Return b, h').
Proof.
  unfold mbind, M_bind. destruct (m h) as [[a|e|] h1]; [|done|done].
  intros E. by exists a, h1.
Qed.

(** ** Reading plain objects *)

Lemma index_get_plain {V} (o : gmap string V) k :
  plain k →
  index_get o k = match o !! k with Some v => Own v | None => Undefined end.
Proof. unfold index_get, plain. intros ->. done. Qed.

Lemma index_get_own {V} (o : gmap string V) k v :
  o !! k = Some v → index_get o k = Own v.
Proof. unfold index_get. by intros ->. Qed.

Lemma index_get_Own {V} (o : gmap string V) k v :
  index_get o k = Own v ↔ o !! k = Some v.
Proof.
  unfold index_get. destruct (o !! k); [|by destruct (inherited k)].
  split; by intros [= ->].
Qed.

Lemma index_get_other {V} (o : gmap string V) k :
  index_get o k = Member ∨ index_get o k = Undefined → o !! k = None.
Proof. unfold index_get. destruct (o !! k); [by intros [?|?]|done]. Qed.

Lemma obj_read_plain {V} (o : PropertyList V) k :
  plain k →
  obj_read k o = match obj_get k o with Some v => Own v | None => Undefined end.
Proof. unfold obj_read, plain. intros ->. done. Qed.

Lemma add_sold_plain sku quantity sold :
  plain sku →
  add_sold sku quantity sold
  = match obj_get sku sold with
    | None => obj_set sku (0 + quantity) (obj_set sku 0 sold)
    | Some v =>
        if falsy v then obj_set sku (0 + quantity) (obj_set sku 0 sold)
        else obj_set sku (v + quantity) sold
    end.
Proof.
  intros Hp. unfold add_sold, count_sold. rewrite obj_read_plain by done.
  by destruct (obj_get sku sold).
Qed.

Lemma count_sold_plain sku quantity sold :
  plain sku → count_sold sku quantity sold = Some (add_sold sku quantity sold).
Proof.
  intros Hp. unfold add_sold, count_sold. rewrite obj_read_plain by done.
  by destruct (obj_get sku sold).
Qed.

Lemma plain_not_proto k : plain k → String.eqb k "__proto__" = false.
Proof.
  intros Hp. destruct (String.eqb k "__proto__") eqn:E; [|done].
  apply String.eqb_eq in E as ->. done.
Qed.

(** ** Running the callbacks *)

Lemma ret_ok {A} (a : A) h : (mret a : M A) h = (Return a, h).
Proof. done. Qed.

Lemma getData_ok h : getData h = (Return (data h), h).
Proof. done. Qed.

Lemma getStats_ok h : getStats h = (Return (sellerStats h), h).
Proof. done. Qed.

Lemma setStats_ok l h : setStats l h = (Return tt, mkHeap (data h) l).
Proof. done. Qed.

Lemma throw_if_false e h : throw_if false e h = (Return tt, h).
Proof. done. Qed.

Lemma throw_if_true e h : throw_if true e h = (Throw e, h).
Proof. done. Qed.

Lemma deref_ok d l ref s :
  l !! ref = Some s → deref ref (mkHeap d l) = (Return s, mkHeap d l).
Proof.
  intros E. unfold deref. rewrite (bind_ok _ _ _ _ _ (getStats_ok _)). simpl.
  by rewrite E.
Qed.

Lemma deref_dangling d l ref :
  l !! ref = None → deref ref (mkHeap d l) = (Throw TypeError, mkHeap d l).
Proof.
  intros E. unfold deref. rewrite (bind_ok _ _ _ _ _ (getStats_ok _)). simpl.
  by rewrite E.
Qed.

Lemma update_ok d l ref s g :
  l !! ref = Some s →
  update ref g (mkHeap d l) = (Return tt, mkHeap d (<[ref := g s]> l)).
Proof.
  intros E. unfold update.
  rewrite (bind_ok _ _ _ _ _ (deref_ok _ _ _ _ E)).
  by rewrite (bind_ok _ _ _ _ _ (getStats_ok _)).
Qed.

Lemma update_dangling d l ref g :
  l !! ref = None → update ref g (mkHeap d l) = (Throw TypeError, mkHeap d l).
Proof.
  intros E. unfold update.
  by rewrite (bind_throw _ _ _ _ _ (deref_dangling _ _ _ E)).
Qed.

Lemma insert_as_alter {A} (l : list A) i x (g : A → A) :
  l !! i = Some x → <[i := g x]> l = alter g i l.
Proof.
  intros E. apply list_eq. intros j.
  destruct (decide (i = j)) as [<-|Hne].
  - rewrite list_lookup_alter_eq, E. simpl.
    apply list_lookup_insert_eq. by eapply lookup_lt_Some.
  - by rewrite list_lookup_insert_ne, list_lookup_alter_ne.
Qed.

Ltac solve_lookup :=
  first [ eassumption
        | apply list_lookup_insert_eq; rewrite ?length_insert; assumption ].

Ltac run_update :=
  cbv beta;
  first [ erewrite bind_ok by (apply update_ok; solve_lookup)
        | erewrite update_ok by solve_lookup ].



Lemma record_sold_ok d l ref s item sold :
  l !! ref = Some s →
  count_sold (Item.sku item) (Item.quantity item) (Stats.products_sold s) = Some sold →
  record_sold ref item (mkHeap d l)
  = (Return tt, mkHeap d (<[ref := Stats.set_products_sold sold s]> l)).
Proof.
  intros E Hsold. unfold record_sold.
  rewrite (bind_ok _ _ _ _ _ (deref_ok _ _ _ _ E)), Hsold.
  by apply update_ok.
Qed.

Lemma record_sold_beyond d l ref s item :
  l !! ref = Some s →
  count_sold (Item.sku item) (Item.quantity item) (Stats.products_sold s) = None →
  record_sold ref item (mkHeap d l) = (Beyond, mkHeap d l).
Proof.
  intros E Hsold. unfold record_sold.
  by rewrite (bind_ok _ _ _ _ _ (deref_ok _ _ _ _ E)), Hsold.
Qed.

(** The callback of an item on the accumulator of a seller: it does the
    item step, unless the sku reads an inherited member, in the index or in
    [products_sold]. *)
Lemma item_callback f calc pidx d l ref s item :
  l !! ref = Some s →
  match index_get pidx (Item.sku item),
        count_sold (Item.sku item) (Item.quantity item) (Stats.products_sold s) with
  | Member, _ | Own _, None =>
      (on_item f pidx (Func calc) ref item (mkHeap d l)).1 = Beyond
  | _, _ =>
      on_item f pidx (Func calc) ref item (mkHeap d l)
      = (Return tt, mkHeap d (<[ref := item_step f calc pidx s item]> l))
  end.
Proof.
  intros E.
  assert (Hlt : (ref < length l)%nat) by (by eapply lookup_lt_Some).
  unfold item_step, item_effect, add_sold.
  destruct (index_get pidx (Item.sku item)) as [product| |] eqn:Hget.
  - apply index_get_Own in Hget as Hsome. rewrite Hsome.
    destruct (count_sold _ _ _) as [sold|] eqn:Hsold.
    + destruct f; simpl; unfold Src.on_item, Part000.on_item; rewrite Hget;
        unfold call_revenue;
        (erewrite bind_ok by reflexivity); simpl;
        repeat run_update; cbv beta; rewrite ?Hsold;
        (erewrite record_sold_ok by (solve_lookup || exact Hsold));
        by rewrite !list_insert_insert_eq.
    + destruct f; simpl; unfold Src.on_item, Part000.on_item; rewrite Hget;
        unfold call_revenue;
        (erewrite bind_ok by reflexivity); simpl;
        repeat run_update; cbv beta;
        by (erewrite record_sold_beyond by (solve_lookup || exact Hsold)).
  - destruct f; simpl; unfold Src.on_item, Part000.on_item; by rewrite Hget.
  - rewrite (index_get_other pidx (Item.sku item)) by (by right).
    destruct f; simpl; unfold Src.on_item, Part000.on_item; rewrite Hget;
      by rewrite list_insert_id.
Qed.


Lemma item_callback_at f calc pidx d l ref s item :
  l !! ref = Some s →
  plain (Item.sku item) →
  on_item f pidx (Func calc) ref item (mkHeap d l)
  = (Return tt, mkHeap d (<[ref := item_step f calc pidx s item]> l)).
Proof.
  intros E Hp. pose proof (item_callback f calc pidx d l ref s item E) as H.
  rewrite index_get_plain, count_sold_plain in H by done.
  by destruct (pidx !! Item.sku item).
Qed.


Lemma items_loop f calc pidx ref d items : ∀ l s,
  l !! ref = Some s →
  Forall (fun item => plain (Item.sku item)) items →
  forEach items (on_item f pidx (Func calc) ref) (mkHeap d l)
  = (Return tt, mkHeap d (<[ref := foldl (item_step f calc pidx) s items]> l)).
Proof.
  induction items as [|item items IH]; intros l s E Hp; simpl.
  - by rewrite list_insert_id.
  - apply Forall_cons in Hp as [Hitem Hp].
    assert (Hlt : (ref < length l)%nat) by (by eapply lookup_lt_Some).
    rewrite (bind_ok _ _ _ _ _ (item_callback_at f calc pidx d l ref s item E Hitem)).
    rewrite (IH _ (item_step f calc pidx s item))
      by (done || by apply list_lookup_insert_eq).
    by rewrite list_insert_insert_eq.
Qed.


Lemma on_record_own f sidx pidx calc record h ref :
  sidx !! Purchase.seller_id record = Some ref →
  on_record f sidx pidx calc record h
  = (_ ← update ref (fun s => Stats.set_sales_count (Stats.sales_count s + 1)%nat s);
     _ ← match f with
         | main_js => mret tt
         | part_000 =>
             update ref (fun s => Stats.set_revenue
                                    (Stats.revenue s + Purchase.total_amount record) s)
         end;
     forEach (Purchase.items record) (on_item f pidx calc ref)) h.
Proof.
  intros E. destruct f; simpl; unfold Src.on_record, Part000.on_record;
    by rewrite (index_get_own _ _ _ E).
Qed.


Lemma record_callback f calc sidx pidx d l record :
  refs_valid sidx (length l) →
  plain_record record →
  on_record f sidx pidx (Func calc) record (mkHeap d l)
  = (Return tt, mkHeap d (record_step f calc sidx pidx l record)).
Proof.
  intros Hv [Hid Hitems]. unfold record_step.
  destruct (sidx !! Purchase.seller_id record) as [ref|] eqn:E.
  - rewrite (on_record_own f sidx pidx (Func calc) record _ ref E).
    apply Hv in E as Hlt. apply lookup_lt_is_Some in Hlt as [s Hs].
    assert (Hlt : (ref < length l)%nat) by (by eapply lookup_lt_Some).
    destruct f; cbv iota; repeat run_update;
      [rewrite (bind_ok _ _ _ _ _ (ret_ok tt _))|];
      (erewrite items_loop by (done || solve_lookup));
      rewrite !list_insert_insert_eq; f_equal; f_equal;
      by rewrite <- (insert_as_alter l ref s).
  - destruct f; simpl; unfold Src.on_record, Part000.on_record;
      by rewrite index_get_plain, E.
Qed.

Lemma record_step_length f calc sidx pidx l record :
  length (record_step f calc sidx pidx l record) = length l.
Proof.
  unfold record_step.
  destruct (sidx !! Purchase.seller_id record); by rewrite ?length_alter.
Qed.


Lemma records_loop f calc sidx pidx d rs : ∀ l,
  refs_valid sidx (length l) →
  Forall plain_record rs →
  forEach rs (on_record f sidx pidx (Func calc)) (mkHeap d l)
  = (Return tt, mkHeap d (foldl (record_step f calc sidx pidx) l rs)).
Proof.
  induction rs as [|r rs IH]; intros l Hv Hp; simpl; [done|].
  apply Forall_cons in Hp as [Hr Hp].
  rewrite (bind_ok _ _ _ _ _ (record_callback f calc sidx pidx d l r Hv Hr)).
  apply IH; [|done]. by rewrite record_step_length.
Qed.

Lemma insert_middle {A} (pre : list A) x y suf :
  <[length pre := y]> (pre ++ x :: suf) = pre ++ y :: suf.
Proof. by rewrite insert_app_r_alt, Nat.sub_diag by lia. Qed.

Lemma lookup_middle {A} (pre : list A) x suf :
  (pre ++ x :: suf) !! length pre = Some x.
Proof. by rewrite lookup_app_r, Nat.sub_diag by lia. Qed.

Lemma ranked_callback f calcBonus d pre s suf total :
  total = Z.of_nat (length (pre ++ s :: suf)) →
  on_ranked f (Func calcBonus) total (length pre) (Z.of_nat (length pre))
    (mkHeap d (pre ++ s :: suf))
  = (Return tt,
     mkHeap d (pre ++ ranked_seller f calcBonus total (length pre) s :: suf)).
Proof.
  intros ->. pose proof (lookup_middle pre s suf) as E.
  destruct f; simpl; unfold Src.on_ranked, Part000.on_ranked.
  - rewrite (bind_ok _ _ _ _ _ (deref_ok _ _ _ _ E)).
    rewrite (bind_ok _ _ _ _ _ (getStats_ok _)). simpl.
    erewrite bind_ok by reflexivity.
    erewrite bind_ok by (by apply update_ok).
    rewrite insert_middle.
    erewrite update_ok by apply lookup_middle.
    by rewrite insert_middle.
  - rewrite (bind_ok _ _ _ _ _ (deref_ok _ _ _ _ E)).
    erewrite bind_ok by reflexivity.
    erewrite bind_ok by (by apply update_ok).
    rewrite insert_middle.
    erewrite update_ok by apply lookup_middle.
    by rewrite insert_middle.
Qed.

Lemma ranking_loop_from f calcBonus d total suf : ∀ pre k,
  k = length pre →
  total = Z.of_nat (length (pre ++ suf)) →
  forEach (seq k (length suf))
    (fun i => on_ranked f (Func calcBonus) total i (Z.of_nat i))
    (mkHeap d (pre ++ suf))
  = (Return tt,
     mkHeap d (pre ++ imap (fun i => ranked_seller f calcBonus total (k + i)) suf)).
Proof.
  induction suf as [|s suf IH]; intros pre k -> Htot; simpl; [done|].
  rewrite (bind_ok _ _ _ _ _ (ranked_callback f calcBonus d pre s suf total Htot)).
  specialize (IH (pre ++ [ranked_seller f calcBonus total (length pre) s])
                 (S (length pre))).
  rewrite <- !(assoc_L (++)) in IH. simpl in IH.
  rewrite IH.
  - rewrite Nat.add_0_r. do 4 f_equal. apply imap_ext. intros i x _. simpl.
    f_equal. lia.
  - rewrite length_app. simpl. lia.
  - rewrite Htot, !length_app. simpl. done.
Qed.

Lemma ranking_loop f calcBonus d l :
  forEachStats (on_ranked f (Func calcBonus) (Z.of_nat (length l))) (mkHeap d l)
  = (Return tt,
     mkHeap d (imap (ranked_seller f calcBonus (Z.of_nat (length l))) l)).
Proof.
  unfold forEachStats. rewrite (bind_ok _ _ _ _ _ (getStats_ok _)). simpl.
  exact (ranking_loop_from f calcBonus d (Z.of_nat (length l)) l [] 0%nat
           eq_refl eq_refl).
Qed.

Lemma report_loop (g : nat → Stats.t → Stats.t) (b : nat → Stats.t → Q) h l :
  (∀ i s, Stats.bonus (g i s) = Some (b i s)) →
  mapM (imap g l) reportEntry h
  = (Return (imap (fun i s => entry_of (g i s) (b i s)) l), h).
Proof.
  revert g b. induction l as [|s l IH]; intros g b Hb; simpl; [done|].
  assert (reportEntry (g 0%nat s) h = (Return (entry_of (g 0%nat s) (b 0%nat s)), h)) as E.
  { unfold reportEntry. by rewrite Hb. }
  rewrite (bind_ok _ _ _ _ _ E).
  rewrite (bind_ok _ _ _ _ _ (IH (g ∘ S) (b ∘ S) (fun i s => Hb (S i) s))).
  done.
Qed.


Lemma reduce_to_object_plain {V} (es : list (string * V)) :
  Forall (fun kv => plain kv.1) es → reduce_to_object es = Some (fromEntries es).
Proof.
  intros Hp. unfold reduce_to_object.
  replace (existsb _ es) with false; [done|].
  symmetry. induction Hp as [|kv es Hkv _ IH]; simpl; [done|].
  by rewrite plain_not_proto.
Qed.

Lemma fromEntries_lookup_from {V} (l : list (string * V)) :
  ∀ (m : gmap string V) k v,
  foldl (fun acc kv => <[kv.1 := kv.2]> acc) m l !! k = Some v →
  (k, v) ∈ l ∨ m !! k = Some v.
Proof.
  induction l as [|[k' v'] l IH]; intros m k v E; simpl in *; [by right|].
  apply IH in E as [E|E].
  - left. by right.
  - destruct (decide (k' = k)) as [->|Hne].
    + rewrite lookup_insert_eq in E. injection E as ->. left. by left.
    + rewrite lookup_insert_ne in E by done. by right.
Qed.

Lemma fromEntries_lookup {V} (l : list (string * V)) k v :
  fromEntries l !! k = Some v → (k, v) ∈ l.
Proof.
  intros E. apply fromEntries_lookup_from in E as [E|E]; [done|].
  by rewrite lookup_empty in E.
Qed.



Lemma sellerIndex_lookup l k ref :
  sellerIndexOf l !! k = Some ref → ∃ s, l !! ref = Some s ∧ Stats.id s = k.
Proof.
  intros E. apply fromEntries_lookup in E.
  apply list_elem_of_lookup in E as [i E].
  rewrite list_lookup_imap in E.
  destruct (l !! i) as [s|] eqn:Hs; simpl in E; [|done].
  injection E as <- <-. eauto.
Qed.

Lemma sellerIndex_valid l : refs_valid (sellerIndexOf l) (length l).
Proof.
  intros k ref E. apply sellerIndex_lookup in E as (s & E & _).
  by eapply lookup_lt_Some.
Qed.


Lemma ranked_seller_bonus f cb total i s :
  Stats.bonus (ranked_seller f cb total i s)
  = Some (stored_bonus f (cb (Z.of_nat i) total s)).
Proof. done. Qed.

Lemma length_nonzero {A} (l : list A) : l ≠ [] → (length l =? 0)%nat = false.
Proof. by destruct l. Qed.

Lemma plain_seller_entries (ss : list Seller.t) :
  Forall (fun s => plain (Seller.id s)) ss →
  Forall (fun kv : string * nat => plain kv.1)
    (imap (fun ref s => (Stats.id s, ref)) (newStats <$> ss)).
Proof.
  intros Hp. apply Forall_forall. intros [k ref] Hin.
  apply list_elem_of_lookup in Hin as [i Hi].
  rewrite list_lookup_imap, list_lookup_fmap in Hi.
  destruct (ss !! i) as [seller|] eqn:E; simpl in Hi; [|done].
  injection Hi as <- <-. simpl.
  eapply Forall_forall in Hp; [exact Hp|]. by eapply list_elem_of_lookup_2.
Qed.

Lemma plain_product_entries (ps : list Product.t) :
  Forall (fun p => plain (Product.sku p)) ps →
  Forall (fun kv : string * Product.t => plain kv.1)
    ((fun p => (Product.sku p, p)) <$> ps).
Proof. intros Hp. by apply Forall_fmap. Qed.



(** A call with a well-formed dataset whose identifiers name no inherited
    member, and two functions, returns. *)
Lemma run_ok f cr cb ss ps rs old :
  ss ≠ [] → ps ≠ [] → rs ≠ [] →
  plain_dataset ss ps rs →
  analyzeSalesData f (strategies cr cb) (mkHeap (dataset ss ps rs) old)
  = (Return (report_of f cr cb ss ps rs),
     mkHeap (dataset ss ps rs) (ranked f cr cb ss ps rs)).
Proof.
  intros Hs Hp Hr (Hids & Hskus & Hrecords).
  destruct f; simpl; unfold Src.analyzeSalesData, Part000.analyzeSalesData.
  all: rewrite (bind_ok _ _ _ _ _ (getData_ok _)); simpl.
  all: rewrite !length_nonzero by done; simpl.
  all: do 3 (erewrite bind_ok by reflexivity).
  all: rewrite (bind_ok _ _ _ _ _ (setStats_ok _ _)); simpl.
  all: rewrite (bind_ok _ _ _ _ _ (getStats_ok _)); simpl.
  1: rewrite !reduce_to_object_plain
       by (by apply plain_seller_entries || by apply plain_product_entries).
  1: change Src.on_record with (on_record main_js).
  2: change Part000.on_record with (on_record part_000).
  all: fold (sellerIndexOf (newStats <$> ss)); fold (productIndexOf ps).
  all: erewrite bind_ok by (apply records_loop; [apply sellerIndex_valid|done]).
  all: rewrite (bind_ok _ _ _ _ _ (getStats_ok _)); simpl.
  all: rewrite (bind_ok _ _ _ _ _ (setStats_ok _ _)); simpl.
  2: rewrite (bind_ok _ _ _ _ _ (getStats_ok _)); simpl.
  1: change (Src.on_ranked (Func cb))
       with (on_ranked main_js (Func cb)
               (Z.of_nat (length (Array_sort by_profit
                  (foldl (record_step main_js cr (sellerIndexOf (newStats <$> ss))
                            (productIndexOf ps)) (newStats <$> ss) rs))))).
  2: change (Part000.on_ranked (Func cb) ?t) with (on_ranked part_000 (Func cb) t).
  all: rewrite (bind_ok _ _ _ _ _ (ranking_loop _ _ _ _)).
  all: rewrite (bind_ok _ _ _ _ _ (getStats_ok _)); simpl.
  all: erewrite report_loop by apply ranked_seller_bonus.
  all: done.
Qed.

(** ** Sorting *)

Lemma sort_insert_perm {A} (cmp : A → A → Q) x l : sort_insert cmp x l ≡ₚ x :: l.
Proof.
  induction l as [|y l IH]; simpl; [done|].
  destruct (Qle_bool (cmp x y) 0); [done|].
  rewrite IH. apply Permutation_swap.
Qed.

Lemma Array_sort_perm {A} (cmp : A → A → Q) l : Array_sort cmp l ≡ₚ l.
Proof.
  induction l as [|x l IH]; simpl; [done|].
  by rewrite sort_insert_perm, IH.
Qed.

Lemma Array_sort_length {A} (cmp : A → A → Q) l :
  length (Array_sort cmp l) = length l.
Proof. by rewrite Array_sort_perm. Qed.

Section Descending.
Context {A : Type} (key : A → Q).

Lemma sort_insert_sorted x l :
  StronglySorted (not_below key) l →
  StronglySorted (not_below key) (sort_insert (descending key) x l).
Proof.
  induction 1 as [|y l Hl IH Hy]; simpl.
  - repeat constructor.
  - destruct (Qle_bool (descending key x y) 0) eqn:E.
    + apply Qle_bool_iff in E. unfold descending in E.
      assert (key y <= key x) as Hyx by lra.
      constructor; [by constructor|].
      constructor; [exact Hyx|].
      eapply Forall_impl; [exact Hy|]. unfold not_below. intros z Hz. lra.
    + assert (¬ descending key x y <= 0) as Hn.
      { intros Hle. apply Qle_bool_iff in Hle. congruence. }
      unfold descending in Hn.
      constructor; [exact IH|].
      rewrite sort_insert_perm. constructor; [|exact Hy].
      unfold not_below. lra.
Qed.

Lemma Array_sort_sorted l :
  StronglySorted (not_below key) (Array_sort (descending key) l).
Proof.
  induction l as [|x l IH]; simpl; [constructor|].
  by apply sort_insert_sorted.
Qed.

(** Stability: the elements of one key keep their order. *)
Lemma sort_insert_same_key k x l :
  filter (fun y => Qeq_bool (key y) k) (sort_insert (descending key) x l)
  = filter (fun y => Qeq_bool (key y) k) (x :: l).
Proof.
  induction l as [|y l IH]; simpl; [done|].
  destruct (Qle_bool (descending key x y) 0) eqn:E; [done|].
  assert (¬ descending key x y <= 0) as Hn.
  { intros Hle. apply Qle_bool_iff in Hle. congruence. }
  unfold descending in Hn.
  rewrite (filter_cons _ y (sort_insert _ _ _)), IH.
  rewrite !filter_cons.
  destruct (decide (Qeq_bool (key y) k)) as [Hy|Hy];
    destruct (decide (Qeq_bool (key x) k)) as [Hx|Hx]; try done.
  apply Is_true_eq_true, Qeq_bool_iff in Hy, Hx. lra.
Qed.

Lemma Array_sort_stable k l :
  filter (fun y => Qeq_bool (key y) k) (Array_sort (descending key) l)
  = filter (fun y => Qeq_bool (key y) k) l.
Proof.
  induction l as [|x l IH]; simpl; [done|].
  by rewrite sort_insert_same_key, !filter_cons, IH.
Qed.
End Descending.

(** ** Rounding *)

Lemma nearest_hundredth_nonneg x : (0 <= nearest_hundredth x)%Z.
Proof.
  unfold nearest_hundredth.
  change 0%Z with (Qfloor 0). apply Qfloor_resp_le.
  pose proof (Qabs_nonneg x). lra.
Qed.

Lemma nearest_hundredth_mono x y :
  Qabs x <= Qabs y → (nearest_hundredth x <= nearest_hundredth y)%Z.
Proof. intros H. apply Qfloor_resp_le. lra. Qed.

Lemma Qabs_hundredths z : Qabs (z # 100) == Z.abs z # 100.
Proof. done. Qed.

Lemma nearest_hundredth_hundredths z :
  nearest_hundredth (z # 100) = Z.abs z.
Proof.
  unfold nearest_hundredth.
  assert (Qabs (z # 100) * 100 + (1 # 2) == inject_Z (Z.abs z) + (1 # 2)) as ->.
  { rewrite Qabs_hundredths. unfold Qeq, Qmult, Qplus, inject_Z. simpl. lia. }
  apply Z.le_antisymm.
  - apply Z.lt_succ_r.
    rewrite Zlt_Qlt. eapply Qle_lt_trans; [apply Qfloor_le|].
    unfold Z.succ. rewrite inject_Z_plus. change (inject_Z 1) with 1. lra.
  - rewrite <- (Qfloor_Z (Z.abs z)) at 1. apply Qfloor_resp_le. lra.
Qed.

Lemma toFixed2_hundredths z : toFixed2 (z # 100) = z # 100.
Proof.
  unfold toFixed2.
  destruct (Qle_bool (inject_Z (10 ^ 21)) (Qabs (z # 100))); [done|].
  rewrite nearest_hundredth_hundredths.
  destruct (Qle_bool 0 (z # 100)) eqn:E.
  - apply Qle_bool_iff in E. unfold Qle in E. simpl in E. f_equal. lia.
  - assert (¬ 0 <= z # 100) as Hn.
    { intros Hle. apply Qle_bool_iff in Hle. congruence. }
    unfold Qle in Hn. simpl in Hn. f_equal. lia.
Qed.

(** Rounding to two decimals is idempotent. *)
Lemma toFixed2_idempotent x : toFixed2 (toFixed2 x) = toFixed2 x.
Proof.
  unfold toFixed2 at 2 3.
  destruct (Qle_bool (inject_Z (10 ^ 21)) (Qabs x)) eqn:Hbig.
  { unfold toFixed2. by rewrite Hbig. }
  destruct (Qle_bool 0 x); apply toFixed2_hundredths.
Qed.

Lemma hundredths_scale z : z # 100 == inject_Z z * (1 # 100).
Proof. unfold Qeq, Qmult, inject_Z. simpl. lia. Qed.

Lemma nearest_hundredth_small x :
  ¬ inject_Z (10 ^ 21) <= Qabs x →
  inject_Z (nearest_hundredth x) <= inject_Z (10 ^ 21) * 100.
Proof.
  intros Hsmall.
  assert (nearest_hundredth x < 10 ^ 21 * 100 + 1)%Z as Hlt.
  { rewrite Zlt_Qlt. eapply Qle_lt_trans; [apply Qfloor_le|].
    rewrite inject_Z_plus, inject_Z_mult.
    change (inject_Z 100) with 100. change (inject_Z 1) with 1. lra. }
  assert (nearest_hundredth x <= 10 ^ 21 * 100)%Z as Hle by lia.
  rewrite Zle_Qle, inject_Z_mult in Hle. exact Hle.
Qed.

(** Rounding to two decimals is monotone. *)
Lemma toFixed2_monotone x y : x <= y → toFixed2 x <= toFixed2 y.
Proof.
  intros Hxy. unfold toFixed2.
  pose proof (nearest_hundredth_nonneg x) as Hnx.
  pose proof (nearest_hundredth_nonneg y) as Hny.
  rewrite Zle_Qle in Hnx, Hny. change (inject_Z 0) with 0 in Hnx, Hny.
  destruct (Qle_bool (inject_Z (10 ^ 21)) (Qabs x)) eqn:Bx;
    destruct (Qle_bool (inject_Z (10 ^ 21)) (Qabs y)) eqn:By;
    destruct (Qle_bool 0 x) eqn:Sx; destruct (Qle_bool 0 y) eqn:Sy;
    try exact Hxy;
    repeat match goal with
      | H : Qle_bool _ _ = true |- _ => apply Qle_bool_iff in H
      | H : Qle_bool ?a ?b = false |- _ =>
          assert (¬ a <= b)
            by (let K := fresh in intros K; apply Qle_bool_iff in K; congruence);
          clear H
      end;
    repeat match goal with
      | H : ¬ inject_Z (10 ^ 21) <= Qabs ?z |- _ =>
          pose proof (nearest_hundredth_small z H); 
          assert (Qabs z < inject_Z (10 ^ 21)) by lra; clear H
      end;
    repeat match goal with
      | H : 0 <= ?z |- _ => 
          lazymatch z with
          | inject_Z _ => fail
          | _ => pose proof (Qabs_pos z H); revert H
          end
      | H : ¬ 0 <= ?z |- _ =>
          assert (z <= 0) as Hneg by lra; pose proof (Qabs_neg z Hneg); clear Hneg; revert H
      end; intros;
    pose proof (hundredths_scale (nearest_hundredth x)) as Px;
    pose proof (hundredths_scale (- nearest_hundredth x)) as Px';
    pose proof (hundredths_scale (nearest_hundredth y)) as Py;
    pose proof (hundredths_scale (- nearest_hundredth y)) as Py';
    rewrite inject_Z_opp in Px', Py';
    try lra.
  all: try (assert (inject_Z (nearest_hundredth x) <= inject_Z (nearest_hundredth y))
              by (rewrite <- Zle_Qle; apply nearest_hundredth_mono; lra); lra).
  all: try (assert (inject_Z (nearest_hundredth y) <= inject_Z (nearest_hundredth x))
              by (rewrite <- Zle_Qle; apply nearest_hundredth_mono; lra); lra).
Qed.

(** ** The aggregation loop on one accumulator *)

Lemma item_step_frame f calc pidx s item :
  let s' := item_step f calc pidx s item in
  Stats.id s' = Stats.id s ∧ Stats.name s' = Stats.name s
  ∧ Stats.sales_count s' = Stats.sales_count s
  ∧ Stats.bonus s' = Stats.bonus s ∧ Stats.top_products s' = Stats.top_products s.
Proof.
  unfold item_step. destruct (pidx !! Item.sku item); [|done].
  by destruct f.
Qed.

Lemma items_frame f calc pidx items : ∀ s,
  let s' := foldl (item_step f calc pidx) s items in
  Stats.id s' = Stats.id s ∧ Stats.name s' = Stats.name s
  ∧ Stats.sales_count s' = Stats.sales_count s
  ∧ Stats.bonus s' = Stats.bonus s ∧ Stats.top_products s' = Stats.top_products s.
Proof.
  induction items as [|item items IH]; intros s; simpl; [done|].
  destruct (IH (item_step f calc pidx s item)) as (-> & -> & -> & -> & ->).
  apply item_step_frame.
Qed.

Lemma record_effect_frame f calc pidx s record :
  let s' := record_effect f calc pidx s record in
  Stats.id s' = Stats.id s ∧ Stats.name s' = Stats.name s
  ∧ Stats.sales_count s' = S (Stats.sales_count s)
  ∧ Stats.bonus s' = Stats.bonus s ∧ Stats.top_products s' = Stats.top_products s.
Proof.
  unfold record_effect.
  match goal with
  | |- context [foldl ?g ?s0 ?items] =>
      destruct (items_frame f calc pidx items s0) as (-> & -> & -> & -> & ->)
  end.
  destruct f; simpl; repeat split; lia.
Qed.

Lemma records_frame f calc pidx records : ∀ s,
  let s' := foldl (record_effect f calc pidx) s records in
  Stats.id s' = Stats.id s ∧ Stats.name s' = Stats.name s
  ∧ Stats.sales_count s' = (Stats.sales_count s + length records)%nat
  ∧ Stats.bonus s' = Stats.bonus s ∧ Stats.top_products s' = Stats.top_products s.
Proof.
  induction records as [|r records IH]; intros s; simpl.
  - repeat split. lia.
  - destruct (IH (record_effect f calc pidx s r)) as (-> & -> & -> & -> & ->).
    destruct (record_effect_frame f calc pidx s r) as (-> & -> & -> & -> & ->).
    repeat split. lia.
Qed.

(** part_000: the items of a record leave the revenue alone. *)
Lemma items_revenue_part_000 calc pidx items : ∀ s,
  Stats.revenue (foldl (item_step part_000 calc pidx) s items) = Stats.revenue s.
Proof.
  induction items as [|item items IH]; intros s; simpl; [done|].
  rewrite IH. unfold item_step. by destruct (pidx !! Item.sku item).
Qed.

Lemma record_revenue_part_000 calc pidx s record :
  Stats.revenue (record_effect part_000 calc pidx s record)
  = Stats.revenue s + Purchase.total_amount record.
Proof. unfold record_effect. by rewrite items_revenue_part_000. Qed.

Lemma records_revenue_part_000 calc pidx records : ∀ s,
  Stats.revenue (foldl (record_effect part_000 calc pidx) s records)
  = foldl (fun acc r => acc + Purchase.total_amount r) (Stats.revenue s) records.
Proof.
  induction records as [|r records IH]; intros s; simpl; [done|].
  by rewrite IH, record_revenue_part_000.
Qed.

(** main.js: the revenue grows by the strategy's result for each resolved
    item, and by nothing else. *)
Lemma items_revenue_main_js calc pidx items : ∀ s,
  Stats.revenue (foldl (item_step main_js calc pidx) s items)
  = foldl (fun acc item =>
             match pidx !! Item.sku item with
             | Some product => acc + calc item product
             | None => acc
             end) (Stats.revenue s) items.
Proof.
  induction items as [|item items IH]; intros s; simpl; [done|].
  rewrite IH. unfold item_step. by destruct (pidx !! Item.sku item).
Qed.

Lemma records_revenue_main_js calc pidx records : ∀ s,
  Stats.revenue (foldl (record_effect main_js calc pidx) s records)
  = foldl (fun acc r =>
             foldl (fun acc item =>
                      match pidx !! Item.sku item with
                      | Some product => acc + calc item product
                      | None => acc
                      end) acc (Purchase.items r))
      (Stats.revenue s) records.
Proof.
  induction records as [|r records IH]; intros s; simpl; [done|].
  rewrite IH. unfold record_effect. by rewrite items_revenue_main_js.
Qed.

(** ** The aggregation loop on the array *)

Lemma imap_alter {A B} (g : nat → A → B) (h : A → A) ref (l : list A) :
  imap g (alter h ref l)
  = imap (fun i a => g i (if decide (i = ref) then h a else a)) l.
Proof.
  apply list_eq. intros i. rewrite !list_lookup_imap.
  destruct (decide (i = ref)) as [->|Hne].
  - rewrite list_lookup_alter_eq. by destruct (l !! ref).
  - rewrite list_lookup_alter_ne by done. by destruct (l !! i).
Qed.

(** Each accumulator sees exactly the records that resolve to it, in input
    order. *)
Lemma aggregation_by_seller f calc sidx pidx rs : ∀ l,
  foldl (record_step f calc sidx pidx) l rs
  = imap (fun i s =>
            foldl (record_effect f calc pidx) s
              (filter (fun r => sidx !! Purchase.seller_id r = Some i) rs)) l.
Proof.
  induction rs as [|r rs IH]; intros l; simpl.
  - apply list_eq. intros i. rewrite list_lookup_imap. by destruct (l !! i).
  - rewrite IH. unfold record_step.
    destruct (sidx !! Purchase.seller_id r) as [ref|] eqn:E.
    + rewrite imap_alter. apply imap_ext. intros i s _. simpl.
      rewrite filter_cons. rewrite E.
      destruct (decide (i = ref)) as [->|Hne].
      * by rewrite decide_True.
      * rewrite decide_False; [done|congruence].
    + apply imap_ext. intros i s _. simpl.
      rewrite filter_cons, E. by rewrite decide_False.
Qed.

Lemma aggregated_by_seller f calc ss ps rs :
  aggregated f calc ss ps rs
  = imap (fun i seller =>
            foldl (record_effect f calc (productIndexOf ps)) (newStats seller)
              (filter (fun r => sellerIndexOf (newStats <$> ss)
                                  !! Purchase.seller_id r = Some i) rs)) ss.
Proof.
  unfold aggregated. simpl. rewrite aggregation_by_seller.
  by rewrite imap_fmap.
Qed.

Lemma aggregated_ids f calc ss ps rs :
  Stats.id <$> aggregated f calc ss ps rs = Seller.id <$> ss.
Proof.
  rewrite aggregated_by_seller, fmap_imap.
  apply list_eq. intros i. rewrite list_lookup_imap, list_lookup_fmap.
  destruct (ss !! i) as [seller|]; simpl; [|done].
  f_equal.
  match goal with
  | |- context [foldl ?g ?s0 ?recs] =>
      destruct (records_frame f calc (productIndexOf ps) recs s0) as (-> & _)
  end.
  done.
Qed.

Lemma aggregated_length f calc ss ps rs :
  length (aggregated f calc ss ps rs) = length ss.
Proof. by rewrite aggregated_by_seller, length_imap. Qed.

(** ** Counting sales *)







(** ** Indexes over unique keys *)

Lemma fromEntries_absent {V} (l : list (string * V)) : ∀ (m : gmap string V) k,
  k ∉ l.*1 →
  foldl (fun acc kv => <[kv.1 := kv.2]> acc) m l !! k = m !! k.
Proof.
  induction l as [|[k' v'] l IH]; intros m k Hk; simpl in *; [done|].
  apply not_elem_of_cons in Hk as [Hne Hk].
  rewrite IH by done. by rewrite lookup_insert_ne.
Qed.

Lemma fromEntries_unique {V} (l : list (string * V)) : ∀ (m : gmap string V) k v,
  NoDup l.*1 → (k, v) ∈ l →
  foldl (fun acc kv => <[kv.1 := kv.2]> acc) m l !! k = Some v.
Proof.
  induction l as [|[k' v'] l IH]; intros m k v Hnd Hin; simpl in *.
  - by apply elem_of_nil in Hin.
  - apply NoDup_cons in Hnd as [Hk' Hnd].
    apply elem_of_cons in Hin as [Heq|Hin].
    + injection Heq as -> ->. rewrite fromEntries_absent by done.
      apply lookup_insert_eq.
    + by apply IH.
Qed.

Lemma sellerIndex_unique (ss : list Seller.t) i seller :
  NoDup (Seller.id <$> ss) → ss !! i = Some seller →
  sellerIndexOf (newStats <$> ss) !! Seller.id seller = Some i.
Proof.
  intros Hnd Hi. unfold sellerIndexOf, fromEntries.
  apply fromEntries_unique.
  - replace ((imap (fun ref s => (Stats.id s, ref)) (newStats <$> ss)).*1)
      with (Seller.id <$> ss); [done|].
    rewrite fmap_imap, imap_fmap. apply list_eq. intros j.
    rewrite list_lookup_imap, list_lookup_fmap. by destruct (ss !! j).
  - apply list_elem_of_lookup. exists i.
    rewrite list_lookup_imap, list_lookup_fmap, Hi. done.
Qed.

(** With unique ids, the records that resolve to the accumulator at a
    position are those carrying the id of the seller at that position. *)
Lemma resolved_by_id (ss : list Seller.t) i seller (rs : list Purchase.t) :
  NoDup (Seller.id <$> ss) → ss !! i = Some seller →
  filter (fun r => sellerIndexOf (newStats <$> ss) !! Purchase.seller_id r = Some i) rs
  = filter (fun r => Purchase.seller_id r = Seller.id seller) rs.
Proof.
  intros Hnd Hi. apply list_filter_iff. intros r. split.
  - intros E. apply sellerIndex_lookup in E as (s & Hs & <-).
    rewrite list_lookup_fmap, Hi in Hs. by injection Hs as <-.
  - intros ->. by apply sellerIndex_unique.
Qed.

(** ** Records and items that resolve to nothing *)







(** ** The report, entry by entry *)

Lemma Forall2_imap {A B C} (P : B → C → Prop) (g : nat → A → B) (h : nat → A → C) l :
  (∀ i a, l !! i = Some a → P (g i a) (h i a)) →
  Forall2 P (imap g l) (imap h l).
Proof.
  intros H. apply Forall2_same_length_lookup. split.
  - by rewrite !length_imap.
  - intros i x y. rewrite !list_lookup_imap.
    destruct (l !! i) as [a|] eqn:E; simpl; [|done].
    intros [= <-] [= <-]. by apply H.
Qed.

(** Each report entry is built from the accumulator at the same rank. *)
Lemma report_of_ranked f cr cb ss ps rs :
  Forall2 (fun e s => ∃ b, Stats.bonus s = Some b ∧ e = entry_of s b)
    (report_of f cr cb ss ps rs) (ranked f cr cb ss ps rs).
Proof.
  unfold report_of, ranked. apply Forall2_imap. intros i s _. eauto.
Qed.

Lemma ranked_view {B} (g : Stats.t → B) f cr cb ss ps rs :
  (∀ i total s, g (ranked_seller f cb total i s) = g s) →
  g <$> ranked f cr cb ss ps rs
  = g <$> Array_sort by_profit (aggregated f cr ss ps rs).
Proof.
  intros Hg. unfold ranked. rewrite fmap_imap.
  apply list_eq. intros i. rewrite list_lookup_imap, list_lookup_fmap.
  destruct (_ !! i); simpl; [|done]. by rewrite Hg.
Qed.

Lemma report_view {B} (g : Report.t → B) (g' : Stats.t → B) f cr cb ss ps rs :
  (∀ s b, g (entry_of s b) = g' s) →
  g <$> report_of f cr cb ss ps rs = g' <$> ranked f cr cb ss ps rs.
Proof.
  intros Hg. unfold report_of, ranked. rewrite !fmap_imap.
  apply imap_ext. intros i s _. simpl. by rewrite Hg.
Qed.

Lemma sorted_aggregated f cr ss ps rs :
  Array_sort by_profit (aggregated f cr ss ps rs) ≡ₚ aggregated f cr ss ps rs.
Proof. apply Array_sort_perm. Qed.

(** ** Object.entries and the top products *)

Lemma insert_index_perm {V} n (e : string * V) l :
  insert_index n e l ≡ₚ (n, e) :: l.
Proof.
  induction l as [|[m e'] l IH]; simpl; [done|].
  destruct (n <=? m)%N; [done|].
  rewrite IH. apply Permutation_swap.
Qed.

Lemma own_keys_split_perm {V} (o : PropertyList V) :
  (snd <$> (own_keys_split o).1) ++ (own_keys_split o).2 ≡ₚ o.
Proof.
  induction o as [|e o IH]; simpl; [done|].
  destruct (own_keys_split o) as [ixs strs]. simpl in *.
  destruct (array_index e.1) as [n|]; simpl.
  - rewrite insert_index_perm. simpl. by rewrite IH.
  - rewrite <- Permutation_middle. by rewrite IH.
Qed.

(** [Object.entries] lists every own property once. *)
Lemma Object_entries_perm {V} (o : PropertyList V) : Object_entries o ≡ₚ o.
Proof.
  unfold Object_entries. pose proof (own_keys_split_perm o) as H.
  by destruct (own_keys_split o).
Qed.

Lemma StronglySorted_take {A} (R : relation A) n l :
  StronglySorted R l → StronglySorted R (take n l).
Proof.
  intros H. rewrite <- (take_drop n l) in H.
  by apply StronglySorted_app_1_l in H.
Qed.

(** [topProducts] is the first ten of all the pairs sold, sorted by
    descending quantity. *)
Lemma topProducts_spec sold :
  ∃ all,
    all ≡ₚ (fun e => TopProduct.mk e.1 e.2) <$> sold
    ∧ StronglySorted (not_below TopProduct.quantity) all
    ∧ topProducts sold = take 10 all.
Proof.
  exists (Array_sort by_quantity ((fun e => TopProduct.mk e.1 e.2) <$> Object_entries sold)).
  split; [|split].
  - by rewrite Array_sort_perm, Object_entries_perm.
  - apply (Array_sort_sorted TopProduct.quantity).
  - done.
Qed.

Lemma topProducts_length sold : (length (topProducts sold) ≤ 10)%nat.
Proof. unfold topProducts, slice0. rewrite length_take. lia. Qed.

Lemma topProducts_sorted sold :
  StronglySorted (not_below TopProduct.quantity) (topProducts sold).
Proof.
  apply StronglySorted_take, (Array_sort_sorted TopProduct.quantity).
Qed.

(** ** Frame and failure modes of the effects *)

Lemma bind_well_behaved {A B} (m : M A) (k : A → M B) :
  well_behaved m → (∀ a, well_behaved (k a)) → well_behaved (m ≫= k).
Proof.
  intros Hm Hk h. unfold mbind, M_bind.
  destruct (Hm h) as [Hd He]. destruct (m h) as [[a|e|] h1]; simpl in *.
  - destruct (Hk a h1) as [Hd' He']. split; [congruence|done].
  - split; [done|]. intros e0 [= <-]. by apply He.
  - by split.
Qed.

Lemma ret_well_behaved {A} (a : A) : well_behaved (mret a).
Proof. intros h. by split. Qed.

Lemma throw_well_behaved {A} : well_behaved (@throw A TypeError).
Proof. intros h. split; [done|]. by intros e [= <-]. Qed.

Lemma beyond_well_behaved {A} : well_behaved (@beyond A).
Proof. intros h. by split. Qed.

Lemma getStats_well_behaved : well_behaved getStats.
Proof. intros h. by split. Qed.

Lemma getData_well_behaved : well_behaved getData.
Proof. intros h. by split. Qed.

Lemma setStats_well_behaved l : well_behaved (setStats l).
Proof. intros h. by split. Qed.

Lemma deref_well_behaved ref : well_behaved (deref ref).
Proof.
  apply bind_well_behaved; [apply getStats_well_behaved|].
  intros l. destruct (l !! ref);
    [apply ret_well_behaved|apply throw_well_behaved].
Qed.

Lemma update_well_behaved ref g : well_behaved (update ref g).
Proof.
  apply bind_well_behaved; [apply deref_well_behaved|]. intros s.
  apply bind_well_behaved; [apply getStats_well_behaved|]. intros l.
  apply setStats_well_behaved.
Qed.

Lemma forEach_well_behaved {A} (l : list A) (callback : A → M unit) :
  (∀ x, well_behaved (callback x)) → well_behaved (forEach l callback).
Proof.
  intros H. induction l as [|x l IH]; simpl; [apply ret_well_behaved|].
  apply bind_well_behaved; [apply H|]. by intros _.
Qed.

Lemma mapM_well_behaved {A B} (l : list A) (callback : A → M B) :
  (∀ x, well_behaved (callback x)) → well_behaved (mapM l callback).
Proof.
  intros H. induction l as [|x l IH]; simpl; [apply ret_well_behaved|].
  apply bind_well_behaved; [apply H|]. intros y.
  apply bind_well_behaved; [apply IH|]. intros ys. apply ret_well_behaved.
Qed.

Lemma call_revenue_well_behaved calc item product :
  well_behaved (call_revenue calc item product).
Proof. destruct calc; simpl; (apply ret_well_behaved || apply throw_well_behaved). Qed.

Lemma call_revenue_on_member_well_behaved calc :
  well_behaved (call_revenue_on_member calc).
Proof.
  destruct calc; simpl; (apply beyond_well_behaved || apply throw_well_behaved).
Qed.

Lemma call_bonus_well_behaved calc index total seller :
  well_behaved (call_bonus calc index total seller).
Proof. destruct calc; simpl; (apply ret_well_behaved || apply throw_well_behaved). Qed.

Lemma reportEntry_well_behaved s : well_behaved (reportEntry s).
Proof.
  unfold reportEntry. destruct (Stats.bonus s);
    [apply ret_well_behaved|apply throw_well_behaved].
Qed.

Lemma forEachStats_well_behaved callback :
  (∀ ref index, well_behaved (callback ref index)) →
  well_behaved (forEachStats callback).
Proof.
  intros H. apply bind_well_behaved; [apply getStats_well_behaved|].
  intros l. by apply forEach_well_behaved.
Qed.

Create HintDb behaved.

#[export] Hint Resolve ret_well_behaved throw_well_behaved beyond_well_behaved
  getStats_well_behaved getData_well_behaved setStats_well_behaved
  deref_well_behaved update_well_behaved call_revenue_well_behaved
  call_revenue_on_member_well_behaved call_bonus_well_behaved
  reportEntry_well_behaved : behaved.

Ltac behaved :=
  repeat first
    [ progress eauto with behaved
    | apply bind_well_behaved; [|intros ?]
    | apply forEach_well_behaved; intros ?
    | apply mapM_well_behaved; intros ?
    | apply forEachStats_well_behaved; intros ? ? ].

Lemma record_sold_well_behaved seller item : well_behaved (record_sold seller item).
Proof.
  unfold record_sold. apply bind_well_behaved; [apply deref_well_behaved|].
  intros s. destruct (count_sold _ _ _); behaved.
Qed.

#[export] Hint Resolve record_sold_well_behaved : behaved.

Lemma on_item_well_behaved f pidx calc seller item :
  well_behaved (on_item f pidx calc seller item).
Proof.
  destruct f; simpl; unfold Src.on_item, Part000.on_item;
    destruct (index_get pidx (Item.sku item)); behaved.
Qed.

Lemma on_item_of_member_well_behaved pidx calc item :
  well_behaved (on_item_of_member pidx calc item).
Proof.
  unfold on_item_of_member. destruct (index_get pidx (Item.sku item)); behaved.
Qed.

Lemma on_record_well_behaved f sidx pidx calc record :
  well_behaved (on_record f sidx pidx calc record).
Proof.
  destruct f; simpl; unfold Src.on_record, Part000.on_record;
    destruct (index_get sidx (Purchase.seller_id record)); behaved;
    first [ apply (on_item_well_behaved main_js)
          | apply (on_item_well_behaved part_000)
          | apply on_item_of_member_well_behaved ].
Qed.

Lemma on_ranked_well_behaved f calc total seller index :
  well_behaved (on_ranked f calc total seller index).
Proof. destruct f; simpl; unfold Src.on_ranked, Part000.on_ranked; behaved. Qed.

(** ** Validation *)

Lemma malformed_dataset d :
  ¬ well_formed d →
  negb (truthy_data d)
  || negb (isArray (sellers d)) || (length (elems (sellers d)) =? 0)%nat
  || negb (isArray (products d)) || (length (elems (products d)) =? 0)%nat
  || negb (isArray (purchase_records d))
  || (length (elems (purchase_records d)) =? 0)%nat = true.
Proof.
  intros H. destruct d as [|[|ss] [|ps] [|rs]]; simpl; try done.
  all: try (by destruct ss).
  all: try (by destruct ss; [|destruct ps]).
  destruct ss as [|? ?]; [done|]. destruct ps as [|? ?]; [done|].
  destruct rs as [|? ?]; [done|]. simpl in H. exfalso. apply H. done.
Qed.

Lemma well_formed_dataset d :
  well_formed d →
  negb (truthy_data d)
  || negb (isArray (sellers d)) || (length (elems (sellers d)) =? 0)%nat
  || negb (isArray (products d)) || (length (elems (products d)) =? 0)%nat
  || negb (isArray (purchase_records d))
  || (length (elems (purchase_records d)) =? 0)%nat = false.
Proof.
  destruct d as [|[|ss] [|ps] [|rs]]; simpl; try done.
  intros (Hs & Hp & Hr). by destruct ss, ps, rs.
Qed.

(** Both sources reject a malformed dataset first, and touch nothing. *)
Lemma invalid_input f options h :
  ¬ well_formed (data h) →
  analyzeSalesData f options h = (Throw InvalidInput, h).
Proof.
  intros H. apply malformed_dataset in H.
  destruct f; simpl; unfold Src.analyzeSalesData, Part000.analyzeSalesData;
    rewrite (bind_ok _ _ _ _ _ (getData_ok _)); rewrite H;
    by rewrite (bind_throw _ _ _ _ _ (throw_if_true _ _)).
Qed.

(** What is left of a call once the dataset has passed the first check. *)
Lemma past_data_check_part_000 options h :
  well_formed (data h) →
  Part000.analyzeSalesData options h
  = (_ ← throw_if (negb (truthy_options options) || negb (typeof_object options))
           MissingOptions;
     _ ← throw_if
           (negb (truthy_slot (calculateRevenue options))
            || negb (truthy_slot (calculateBonus options))
            || negb (is_function (calculateRevenue options))
            || negb (is_function (calculateBonus options)))
           MissingStrategy;
     _ ← setStats (newStats <$> elems (sellers (data h)));
     sellerStats ← getStats;
     _ ← forEach (elems (purchase_records (data h)))
           (Part000.on_record
              (fromEntries (imap (fun ref s => (Stats.id s, ref)) sellerStats))
              (fromEntries ((fun p => (Product.sku p, p)) <$> elems (products (data h))))
              (calculateRevenue options));
     l ← getStats;
     _ ← setStats (Array_sort by_profit l);
     l ← getStats;
     _ ← forEachStats (Part000.on_ranked (calculateBonus options) (Z.of_nat (length l)));
     l ← getStats;
     mapM l reportEntry) h.
Proof.
  intros H. apply well_formed_dataset in H.
  unfold Part000.analyzeSalesData.
  rewrite (bind_ok _ _ _ _ _ (getData_ok _)). rewrite H.
  by rewrite (bind_ok _ _ _ _ _ (throw_if_false _ _)).
Qed.

Lemma past_data_check_main_js options h :
  well_formed (data h) →
  Src.analyzeSalesData options h
  = (_ ← throw_if (negb (truthy_options options)) MissingOptions;
     _ ← throw_if
           (negb (truthy_slot (calculateRevenue options))
            || negb (truthy_slot (calculateBonus options)))
           MissingStrategy;
     _ ← setStats (newStats <$> elems (sellers (data h)));
     sellerStats ← getStats;
     match reduce_to_object (imap (fun ref s => (Stats.id s, ref)) sellerStats),
           reduce_to_object
             ((fun p => (Product.sku p, p)) <$> elems (products (data h)))
     with
     | Some sellerIndex, Some productIndex =>
         _ ← forEach (elems (purchase_records (data h)))
               (Src.on_record sellerIndex productIndex (calculateRevenue options));
         l ← getStats;
         _ ← setStats (Array_sort by_profit l);
         _ ← forEachStats (Src.on_ranked (calculateBonus options));
         l ← getStats;
         mapM l reportEntry
     | _, _ => beyond
     end) h.
Proof.
  intros H. apply well_formed_dataset in H.
  unfold Src.analyzeSalesData.
  rewrite (bind_ok _ _ _ _ _ (getData_ok _)). rewrite H.
  by rewrite (bind_ok _ _ _ _ _ (throw_if_false _ _)).
Qed.

Lemma aggregation_and_ranking_part_000 d calcRevenue calcBonus :
  well_behaved
    (_ ← setStats (newStats <$> elems (sellers d));
     sellerStats ← getStats;
     _ ← forEach (elems (purchase_records d))
           (Part000.on_record
              (fromEntries (imap (fun ref s => (Stats.id s, ref)) sellerStats))
              (fromEntries ((fun p => (Product.sku p, p)) <$> elems (products d)))
              calcRevenue);
     l ← getStats;
     _ ← setStats (Array_sort by_profit l);
     l ← getStats;
     _ ← forEachStats (Part000.on_ranked calcBonus (Z.of_nat (length l)));
     l ← getStats;
     mapM l reportEntry).
Proof.
  behaved. apply (on_record_well_behaved part_000).
Qed.

Lemma aggregation_and_ranking_main_js d calcRevenue calcBonus :
  well_behaved
    (_ ← setStats (newStats <$> elems (sellers d));
     sellerStats ← getStats;
     match reduce_to_object (imap (fun ref s => (Stats.id s, ref)) sellerStats),
           reduce_to_object ((fun p => (Product.sku p, p)) <$> elems (products d))
     with
     | Some sellerIndex, Some productIndex =>
         _ ← forEach (elems (purchase_records d))
               (Src.on_record sellerIndex productIndex calcRevenue);
         l ← getStats;
         _ ← setStats (Array_sort by_profit l);
         _ ← forEachStats (Src.on_ranked calcBonus);
         l ← getStats;
         mapM l reportEntry
     | _, _ => beyond
     end).
Proof.
  behaved. do 2 (destruct (reduce_to_object _); behaved).
  apply (on_record_well_behaved main_js).
Qed.

Lemma well_formed_cases d : well_formed d ∨ ¬ well_formed d.
Proof.
  destruct d as [|[|ss] [|ps] [|rs]]; simpl; try (by right; intros []).
  destruct ss; [right; by intros (? & _)|].
  destruct ps; [right; by intros (_ & ? & _)|].
  destruct rs; [right; by intros (_ & _ & ?)|].
  by left.
Qed.

(** ** Order of the report *)

Lemma sorted_profits f cr ss ps rs :
  StronglySorted (flip Qle)
    (Stats.profit <$> Array_sort by_profit (aggregated f cr ss ps rs)).
Proof.
  apply (StronglySorted_fmap _ (not_below Stats.profit)); [done|].
  apply (Array_sort_sorted Stats.profit).
Qed.

Lemma StronglySorted_rounded (l : list Q) :
  StronglySorted (flip Qle) l → StronglySorted (flip Qle) (toFixed2 <$> l).
Proof.
  apply StronglySorted_fmap. intros x y. unfold flip. apply toFixed2_monotone.
Qed.

(** ** Where each report entry comes from *)

Lemma aggregated_lookup f calc ss ps rs j s :
  aggregated f calc ss ps rs !! j = Some s →
  ∃ seller,
    ss !! j = Some seller
    ∧ s = foldl (record_effect f calc (productIndexOf ps)) (newStats seller)
            (filter (fun r => sellerIndexOf (newStats <$> ss)
                                !! Purchase.seller_id r = Some j) rs).
Proof.
  rewrite aggregated_by_seller, list_lookup_imap.
  destruct (ss !! j) as [seller|]; simpl; [|done].
  intros [= <-]. eauto.
Qed.

Lemma aggregated_fresh f calc ss ps rs s :
  s ∈ aggregated f calc ss ps rs →
  Stats.bonus s = None ∧ Stats.top_products s = None.
Proof.
  intros Hin. apply list_elem_of_lookup in Hin as [j Hj].
  apply aggregated_lookup in Hj as (seller & _ & ->).
  match goal with
  | |- context [foldl ?g ?s0 ?recs] =>
      destruct (records_frame f calc (productIndexOf ps) recs s0)
        as (_ & _ & _ & -> & ->)
  end.
  done.
Qed.

Lemma report_lookup f cr cb ss ps rs rank e :
  report_of f cr cb ss ps rs !! rank = Some e →
  ∃ seller,
    seller ∈ aggregated f cr ss ps rs
    ∧ ranked f cr cb ss ps rs !! rank
      = Some (ranked_seller f cb (Z.of_nat (length ss)) rank seller)
    ∧ e = entry_of (ranked_seller f cb (Z.of_nat (length ss)) rank seller)
            (stored_bonus f (cb (Z.of_nat rank) (Z.of_nat (length ss)) seller)).
Proof.
  unfold report_of, ranked. rewrite !list_lookup_imap.
  rewrite Array_sort_length, aggregated_length.
  destruct (Array_sort by_profit (aggregated f cr ss ps rs) !! rank)
    as [seller|] eqn:E; simpl; [|done].
  intros [= <-]. exists seller. split; [|done].
  rewrite <- sorted_aggregated. by eapply list_elem_of_lookup_2.
Qed.

Lemma record_callback_at f calc sidx pidx d l record ref s :
  sidx !! Purchase.seller_id record = Some ref →
  l !! ref = Some s →
  Forall (fun item => plain (Item.sku item)) (Purchase.items record) →
  on_record f sidx pidx (Func calc) record (mkHeap d l)
  = (Return tt, mkHeap d (<[ref := record_effect f calc pidx s record]> l)).
Proof.
  intros E Hs Hitems.
  assert (Hlt : (ref < length l)%nat) by (by eapply lookup_lt_Some).
  rewrite (on_record_own f sidx pidx (Func calc) record _ ref E).
  destruct f; cbv iota; repeat run_update;
    [rewrite (bind_ok _ _ _ _ _ (ret_ok tt _))|];
    (erewrite items_loop by (done || solve_lookup));
    by rewrite !list_insert_insert_eq.
Qed.

Lemma report_entry_origin f cr cb ss ps rs e :
  NoDup (Seller.id <$> ss) →
  e ∈ report_of f cr cb ss ps rs →
  ∃ s,
    s = foldl (record_effect f cr (productIndexOf ps))
          (Stats.mk (Report.seller_id e) (Report.name e) 0 0 0 [] None None)
          (filter (fun r => Purchase.seller_id r = Report.seller_id e) rs)
    ∧ Report.revenue e = toFixed2 (Stats.revenue s)
    ∧ Report.profit e = toFixed2 (Stats.profit s)
    ∧ Report.sales_count e = Stats.sales_count s.
Proof.
  intros Hnd Hin. apply list_elem_of_lookup in Hin as [rank Hrank].
  apply report_lookup in Hrank as (seller & Hin & _ & ->).
  apply list_elem_of_lookup in Hin as [j Hj].
  apply aggregated_lookup in Hj as (sl & Hsl & ->).
  rewrite (resolved_by_id ss j sl rs Hnd Hsl). simpl.
  match goal with
  | |- context [foldl ?g ?s0 ?recs] =>
      destruct (records_frame f cr (productIndexOf ps) recs s0) as (-> & -> & _)
  end.
  simpl. eexists. split; [reflexivity|]. done.
Qed.

Lemma ranked_callback_at f calcBonus d l rank s :
  l !! rank = Some s →
  on_ranked f (Func calcBonus) (Z.of_nat (length l)) rank (Z.of_nat rank) (mkHeap d l)
  = (Return tt,
     mkHeap d (<[rank := ranked_seller f calcBonus (Z.of_nat (length l)) rank s]> l)).
Proof.
  intros Hs.
  apply list_elem_of_split_length in Hs as (pre & suf & -> & ->).
  rewrite ranked_callback by done. by rewrite insert_middle.
Qed.

(** * The specified properties *)

Ltac plain_identifiers := repeat constructor.

Ltac not_listed :=
  cbn; rewrite ?elem_of_cons, elem_of_nil; intuition discriminate.

(** C1, as the code has it.  For a dataset whose identifiers name no member
    of [Object.prototype]: in part_000 the callback of a purchase record
    whose [seller_id] resolves adds the record's [total_amount] to that
    seller's revenue, whatever the revenue strategy; with unique seller ids
    the revenue of a report entry is the rounded sum of the [total_amount]s
    of the seller's records.  In main.js the revenue of a report entry is
    instead the rounded sum of the revenue strategy's results for the
    seller's items of known products. *)
Theorem revenue_of_a_seller (calcRevenue : RevenueFn) (calcBonus : BonusFn)
    (ss : list Seller.t) (ps : list Product.t) (rs : list Purchase.t)
    (old : list Stats.t) :
  ss ≠ [] → ps ≠ [] → rs ≠ [] →
  NoDup (Seller.id <$> ss) →
  plain_dataset ss ps rs →
  (∀ sidx pidx record d l seller s,
     sidx !! Purchase.seller_id record = Some seller →
     l !! seller = Some s →
     Forall (fun item => plain (Item.sku item)) (Purchase.items record) →
     ∃ l' s',
       Part000.on_record sidx pidx (Func calcRevenue) record (mkHeap d l)
       = (Return tt, mkHeap d l')
       ∧ l' !! seller = Some s'
       ∧ Stats.revenue s' = Stats.revenue s + Purchase.total_amount record)
  ∧ (∃ report h',
       Part000.analyzeSalesData (strategies calcRevenue calcBonus)
         (mkHeap (dataset ss ps rs) old) = (Return report, h')
       ∧ ∀ e, e ∈ report →
           Report.revenue e
           = toFixed2 (billed (filter (fun r => Purchase.seller_id r = Report.seller_id e)
                                 rs)))
  ∧ (∃ report h',
       Src.analyzeSalesData (strategies calcRevenue calcBonus)
         (mkHeap (dataset ss ps rs) old) = (Return report, h')
       ∧ ∀ e, e ∈ report →
           Report.revenue e
           = toFixed2 (itemised calcRevenue (productIndexOf ps)
                         (filter (fun r => Purchase.seller_id r = Report.seller_id e)
                            rs))).
Proof.
  intros Hs Hp Hr Hnd Hplain. split; [|split].
  - intros sidx pidx record d l seller s E Hl Hitems.
    eexists _, _. split; [by apply (record_callback_at part_000)|].
    split; [apply list_lookup_insert_eq; by eapply lookup_lt_Some|].
    apply record_revenue_part_000.
  - eexists _, _. split; [by apply (run_ok part_000)|].
    intros e He. apply report_entry_origin in He as (s & -> & -> & _); [|done].
    by rewrite records_revenue_part_000.
  - eexists _, _. split; [by apply (run_ok main_js)|].
    intros e He. apply report_entry_origin in He as (s & -> & -> & _); [|done].
    by rewrite records_revenue_main_js.
Qed.

Lemma revenue_of_a_seller_witness :
  (∃ report h',
     Part000.analyzeSalesData
       (strategies Part000.calculateSimpleRevenue Part000.calculateBonusByProfit)
       (mkHeap (dataset [alexey; mikhail] [chair; lamp]
                  [discounted_sale; mixed_sale; orphan_sale]) [])
     = (Return report, h')
     ∧ ∀ e, e ∈ report →
         Report.revenue e
         = toFixed2 (billed (filter (fun r => Purchase.seller_id r = Report.seller_id e)
                               [discounted_sale; mixed_sale; orphan_sale]))).
Proof.
  destruct (revenue_of_a_seller Part000.calculateSimpleRevenue
              Part000.calculateBonusByProfit [alexey; mikhail] [chair; lamp]
              [discounted_sale; mixed_sale; orphan_sale] [])
    as (_ & H & _); [done|done|done| |plain_identifiers|exact H].
  apply NoDup_cons. split; [|apply NoDup_singleton].
  rewrite list_elem_of_singleton. discriminate.
Defined.

(** main.js, against C1: a sale billed 100 whose only item is worth 90
    after its discount is reported as a revenue of 90. *)
Lemma main_js_reports_itemised_revenue :
  (∃ report,
     (Src.analyzeSalesData
        (strategies Src.calculateSimpleRevenue Src.calculateBonusByProfit)
        (mkHeap one_seller_data [])).1 = Return report
     ∧ Report.revenue <$> report = [toFixed2 90])
  ∧ billed [discounted_sale] == 100
  ∧ Src.calculateSimpleRevenue (Item.mk "SKU_001" 1 100 10) chair == 90
  ∧ ¬ toFixed2 90 == toFixed2 (billed [discounted_sale]).
Proof.
  split; [eexists; split; by vm_compute|].
  split; [by vm_compute|]. split; by vm_compute.
Qed.

(** C2, as the code has it.  Rounding to two decimals is idempotent.  In
    both sources, for a dataset whose identifiers name no member of
    [Object.prototype], the bonus of a report entry is the strategy's result
    for the accumulator that the sort left at that rank, rounded to two
    decimals.  The ranking callback of part_000 stores the rounded value on
    the accumulator when it assigns the bonus, so the rounding of the final
    report changes nothing; that of main.js stores the strategy's result as
    it is, and the final report alone rounds it. *)
Theorem bonus_rounding (f : SourceFile) (calcRevenue : RevenueFn)
    (calcBonus : BonusFn) (ss : list Seller.t) (ps : list Product.t)
    (rs : list Purchase.t) (old : list Stats.t) :
  ss ≠ [] → ps ≠ [] → rs ≠ [] →
  plain_dataset ss ps rs →
  (∀ x, toFixed2 (toFixed2 x) = toFixed2 x)
  ∧ (∀ d l rank s,
       l !! rank = Some s →
       ∃ l' s',
         on_ranked f (Func calcBonus) (Z.of_nat (length l)) rank (Z.of_nat rank)
           (mkHeap d l) = (Return tt, mkHeap d l')
         ∧ l' !! rank = Some s'
         ∧ Stats.bonus s'
           = Some (let raw := calcBonus (Z.of_nat rank) (Z.of_nat (length l)) s in
                   match f with main_js => raw | part_000 => toFixed2 raw end))
  ∧ ∃ report h',
      analyzeSalesData f (strategies calcRevenue calcBonus)
        (mkHeap (dataset ss ps rs) old) = (Return report, h')
      ∧ length report = length (sellerStats h')
      ∧ ∀ rank e s,
          report !! rank = Some e → sellerStats h' !! rank = Some s →
          ∃ seller raw stored,
            Array_sort by_profit (aggregated f calcRevenue ss ps rs) !! rank
            = Some seller
            ∧ Stats.bonus seller = None
            ∧ Stats.top_products seller = None
            ∧ raw = calcBonus (Z.of_nat rank) (Z.of_nat (length ss)) seller
            ∧ stored = match f with main_js => raw | part_000 => toFixed2 raw end
            ∧ s = Stats.set_top_products (topProducts (Stats.products_sold seller))
                    (Stats.set_bonus stored seller)
            ∧ Stats.bonus s = Some stored
            ∧ Report.bonus e = toFixed2 raw
            ∧ (f = part_000 → Report.bonus e = stored).
Proof.
  intros Hs Hp Hr Hplain. split; [apply toFixed2_idempotent|]. split.
  { intros d l rank s Hl. eexists _, _.
    split; [by apply ranked_callback_at|].
    split; [apply list_lookup_insert_eq; by eapply lookup_lt_Some|].
    by destruct f. }
  eexists _, _. split; [by apply run_ok|]. simpl. split.
  { unfold report_of, ranked. by rewrite !length_imap. }
  intros rank e s He Hs'.
  unfold report_of in He. unfold ranked in Hs'.
  rewrite list_lookup_imap in He. rewrite list_lookup_imap in Hs'.
  rewrite Array_sort_length, aggregated_length in He, Hs'.
  destruct (Array_sort by_profit (aggregated f calcRevenue ss ps rs) !! rank)
    as [seller|] eqn:Hrank; simpl in He, Hs'; [|done].
  injection He as <-. injection Hs' as <-.
  assert (seller ∈ aggregated f calcRevenue ss ps rs) as Hin.
  { rewrite <- sorted_aggregated. by eapply list_elem_of_lookup_2. }
  apply aggregated_fresh in Hin as [Hb Ht].
  exists seller, (calcBonus (Z.of_nat rank) (Z.of_nat (length ss)) seller),
    (stored_bonus f (calcBonus (Z.of_nat rank) (Z.of_nat (length ss)) seller)).
  split; [done|]. split; [done|]. split; [done|]. split; [done|].
  split; [by destruct f|].
  split; [done|]. split; [done|]. split.
  - destruct f; simpl; [done|apply toFixed2_idempotent].
  - intros ->. simpl. apply toFixed2_idempotent.
Qed.

Lemma bonus_rounding_witness :
  (∀ x, toFixed2 (toFixed2 x) = toFixed2 x)
  ∧ (∀ d l rank s,
       l !! rank = Some s →
       ∃ l' s',
         on_ranked part_000 (Func flat_bonus) (Z.of_nat (length l)) rank (Z.of_nat rank)
           (mkHeap d l) = (Return tt, mkHeap d l')
         ∧ l' !! rank = Some s'
         ∧ Stats.bonus s'
           = Some (let raw := flat_bonus (Z.of_nat rank) (Z.of_nat (length l)) s in
                   toFixed2 raw))
  ∧ ∃ report h',
      analyzeSalesData part_000 (strategies Part000.calculateSimpleRevenue flat_bonus)
        (mkHeap (dataset [alexey] [chair] [discounted_sale]) []) = (Return report, h')
      ∧ length report = length (sellerStats h')
      ∧ ∀ rank e s,
          report !! rank = Some e → sellerStats h' !! rank = Some s →
          ∃ seller raw stored,
            Array_sort by_profit
              (aggregated part_000 Part000.calculateSimpleRevenue
                 [alexey] [chair] [discounted_sale]) !! rank
            = Some seller
            ∧ Stats.bonus seller = None
            ∧ Stats.top_products seller = None
            ∧ raw = flat_bonus (Z.of_nat rank) (Z.of_nat (length [alexey])) seller
            ∧ stored = toFixed2 raw
            ∧ s = Stats.set_top_products (topProducts (Stats.products_sold seller))
                    (Stats.set_bonus stored seller)
            ∧ Stats.bonus s = Some stored
            ∧ Report.bonus e = toFixed2 raw
            ∧ (part_000 = part_000 → Report.bonus e = stored).
Proof.
  apply (bonus_rounding part_000 Part000.calculateSimpleRevenue flat_bonus
           [alexey] [chair] [discounted_sale] []); [done|done|done|].
  plain_identifiers.
Defined.

(** main.js, against C2: a bonus of 12.3456 is stored on the accumulator as
    it is, and becomes 12.35 only in the report. *)
Lemma main_js_stores_raw_bonus :
  Stats.bonus
    <$> sellerStats (Src.analyzeSalesData
                       (strategies Src.calculateSimpleRevenue flat_bonus)
                       (mkHeap one_seller_data [])).2
  = [Some 12.3456]
  ∧ (∃ report,
       (Src.analyzeSalesData (strategies Src.calculateSimpleRevenue flat_bonus)
          (mkHeap one_seller_data [])).1 = Return report
       ∧ Report.bonus <$> report = [toFixed2 12.3456])
  ∧ toFixed2 12.3456 == 12.35
  ∧ ¬ 12.3456 == toFixed2 12.3456.
Proof.
  split; [by vm_compute|]. split; [eexists; split; by vm_compute|].
  split; [by vm_compute|]. by vm_compute.
Qed.

(** C3, as the code has it.  A dataset that is absent or has a field that is
    not a non-empty array fails with [InvalidInput] in both sources.  Past
    that check, part_000 fails with [MissingOptions] when the options are
    absent or not an object, and with [MissingStrategy] when one of the two
    strategies is absent or not a function.  main.js fails with
    [MissingOptions] only when the options are absent (falsy), with
    [MissingStrategy] when one of the two strategies is absent (falsy), which
    includes options that are a truthy primitive, and lets a truthy value
    that is not a function through: a later failure is then a [TypeError].
    Every failure of the validator leaves the heap as it was: no accumulator
    has been created or written. *)
Theorem validation_failures (h : Heap) (options : OptionsValue) :
  (¬ well_formed (data h) →
   ∀ f, analyzeSalesData f options h = (Throw InvalidInput, h))
  ∧ (well_formed (data h) → ¬ is_object options →
     Part000.analyzeSalesData options h = (Throw MissingOptions, h))
  ∧ (well_formed (data h) → is_object options →
     ¬ (invokable (calculateRevenue options) ∧ invokable (calculateBonus options)) →
     Part000.analyzeSalesData options h = (Throw MissingStrategy, h))
  ∧ (well_formed (data h) → options = OptFalsy →
     Src.analyzeSalesData options h = (Throw MissingOptions, h))
  ∧ (well_formed (data h) → options ≠ OptFalsy →
     calculateRevenue options = Falsy ∨ calculateBonus options = Falsy →
     Src.analyzeSalesData options h = (Throw MissingStrategy, h))
  ∧ (well_formed (data h) → options ≠ OptFalsy →
     calculateRevenue options ≠ Falsy → calculateBonus options ≠ Falsy →
     ∀ e, (Src.analyzeSalesData options h).1 = Throw e → e = TypeError).
Proof.
  repeat split.
  - intros H f. by apply invalid_input.
  - intros Hwf Hobj. rewrite past_data_check_part_000 by done.
    destruct options; try done. exfalso. apply Hobj. by eexists _, _.
  - intros Hwf (r & b & ->) Hfun. rewrite past_data_check_part_000 by done.
    simpl. destruct r, b; try done.
    exfalso. apply Hfun. split; by eexists.
  - intros Hwf ->. by rewrite past_data_check_main_js.
  - intros Hwf Hopt Hslot. rewrite past_data_check_main_js by done.
    destruct options as [| |r b|r b]; try done; simpl in *;
      destruct Hslot as [-> | ->]; try done; by destruct r.
  - intros Hwf Hopt Hr Hb e. rewrite past_data_check_main_js by done.
    destruct options as [| |r b|r b]; try done; simpl in *;
      destruct r; try done; destruct b; try done;
      apply (aggregation_and_ranking_main_js (data h)).
Qed.

Lemma validation_failures_witness :
  Part000.analyzeSalesData OptPrimitive (mkHeap one_seller_data [])
  = (Throw MissingOptions, mkHeap one_seller_data [])
  ∧ Part000.analyzeSalesData (OptObject NotCallable (Func flat_bonus))
      (mkHeap one_seller_data [])
    = (Throw MissingStrategy, mkHeap one_seller_data [])
  ∧ Src.analyzeSalesData (OptObject (Func Src.calculateSimpleRevenue) Falsy)
      (mkHeap one_seller_data [])
    = (Throw MissingStrategy, mkHeap one_seller_data [])
  ∧ analyzeSalesData main_js (strategies Src.calculateSimpleRevenue flat_bonus)
      (mkHeap DataFalsy [])
    = (Throw InvalidInput, mkHeap DataFalsy []).
Proof.
  assert (well_formed one_seller_data) as Hwf by (by repeat split).
  split; [|split; [|split]].
  - destruct (validation_failures (mkHeap one_seller_data []) OptPrimitive)
      as (_ & H & _).
    apply H; [exact Hwf|]. by intros (r & b & ?).
  - destruct (validation_failures (mkHeap one_seller_data [])
                (OptObject NotCallable (Func flat_bonus))) as (_ & _ & H & _).
    apply H; [exact Hwf|by eexists _, _|]. by intros [[g ?] _].
  - destruct (validation_failures (mkHeap one_seller_data [])
                (OptObject (Func Src.calculateSimpleRevenue) Falsy))
      as (_ & _ & _ & _ & H & _).
    apply H; [exact Hwf|done|by right].
  - destruct (validation_failures (mkHeap DataFalsy [])
                (strategies Src.calculateSimpleRevenue flat_bonus)) as (H & _).
    apply H. by intros [].
Defined.

(** main.js, against C3: a truthy revenue strategy that is not a function
    is not rejected.  The call fails with a [TypeError] at the first resolved
    item, after the accumulators were created and the sale was counted; when
    no item resolves it returns a report.  Options that are a truthy primitive
    fail with [MissingStrategy], not [MissingOptions]. *)
Lemma main_js_validates_truthiness_only :
  (Src.analyzeSalesData (OptObject NotCallable (Func flat_bonus))
     (mkHeap one_seller_data [])).1 = Throw TypeError
  ∧ Stats.sales_count
      <$> sellerStats (Src.analyzeSalesData (OptObject NotCallable (Func flat_bonus))
                         (mkHeap one_seller_data [])).2 = [1%nat]
  ∧ (∃ report,
       (Src.analyzeSalesData (OptObject NotCallable (Func flat_bonus))
          (mkHeap orphan_data [])).1 = Return report)
  ∧ Src.analyzeSalesData OptPrimitive (mkHeap one_seller_data [])
    = (Throw MissingStrategy, mkHeap one_seller_data [])
  ∧ @Throw (list Report.t) TypeError ≠ Throw MissingStrategy
  ∧ @Throw (list Report.t) MissingStrategy ≠ Throw MissingOptions.
Proof.
  split; [by vm_compute|]. split; [by vm_compute|].
  split; [eexists; by vm_compute|]. split; [by vm_compute|].
  split; discriminate.
Qed.

(** C4, at its failing input.  A purchase record whose [seller_id] is
    [constructor], the id of no seller, is not skipped: the index reads the
    member that every plain object inherits under that name, the record is
    processed, and its first resolved item ends the call with a [TypeError]
    in both sources: no report is returned for this well-formed dataset.
    Without that record the report has its one entry. *)
Theorem no_report_after_inherited_seller_id (f : SourceFile) :
  (analyzeSalesData f
     (strategies (calculateSimpleRevenue f) (calculateBonusByProfit f))
     (mkHeap (dataset [alexey] [chair] [discounted_sale; constructor_sale]) [])).1
  = Throw TypeError
  ∧ well_formed (dataset [alexey] [chair] [discounted_sale; constructor_sale])
  ∧ ("constructor" ∉ Seller.id <$> [alexey])
  ∧ ∃ report,
      (analyzeSalesData f
         (strategies (calculateSimpleRevenue f) (calculateBonusByProfit f))
         (mkHeap (dataset [alexey] [chair] [discounted_sale]) [])).1
      = Return report
      ∧ Report.seller_id <$> report = ["seller_1"].
Proof.
  split; [destruct f; by vm_compute|]. split; [done|]. split; [not_listed|].
  destruct f; eexists; split; by vm_compute.
Qed.


(** C6.  Both reference bonus strategies apply the rank rules first-match:
    index 0 yields 15% of the profit, indexes 1 and 2 yield 10%, index
    [total - 1], when not matched earlier, yields 0, and every other index
    yields 5%.  With [total = 1] the only seller gets 15% (first wins over
    last), and with [total = 4] the bonuses by rank are 15%, 10%, 10% and 0
    of the profit. *)
Theorem bonus_rules_first_match (f : SourceFile) (index total : Z) (seller : Stats.t) :
  let bonus := calculateBonusByProfit f index total seller in
  let profit := Stats.profit seller in
  (index = 0%Z → bonus == profit * 0.15)
  ∧ (index = 1%Z ∨ index = 2%Z → bonus == profit * 0.10)
  ∧ (index ≠ 0%Z → index ≠ 1%Z → index ≠ 2%Z → index = (total - 1)%Z → bonus == 0)
  ∧ (index ≠ 0%Z → index ≠ 1%Z → index ≠ 2%Z → index ≠ (total - 1)%Z →
     bonus == profit * 0.05)
  ∧ calculateBonusByProfit f 0%Z 1%Z seller == profit * 0.15
  ∧ Forall2 Qeq
      ((fun rank => calculateBonusByProfit f rank 4%Z seller) <$> [0; 1; 2; 3]%Z)
      [profit * 0.15; profit * 0.10; profit * 0.10; 0].
Proof.
  assert (15 / 100 == 0.15) as E15 by reflexivity.
  assert (10 / 100 == 0.10) as E10 by reflexivity.
  assert (0 / 100 == 0) as E0 by reflexivity.
  assert (5 / 100 == 0.05) as E5 by reflexivity.
  simpl. repeat split.
  - intros ->. destruct f; simpl; unfold Src.calculateBonusByProfit,
      Part000.calculateBonusByProfit; simpl; rewrite ?E15; lra.
  - intros [-> | ->]; destruct f; simpl; unfold Src.calculateBonusByProfit,
      Part000.calculateBonusByProfit; simpl; rewrite ?E10; lra.
  - intros H0 H1 H2 ->.
    destruct f; simpl; unfold Src.calculateBonusByProfit,
      Part000.calculateBonusByProfit;
      rewrite (proj2 (Z.eqb_neq _ _) H0), (proj2 (Z.eqb_neq _ _) H1),
        (proj2 (Z.eqb_neq _ _) H2), Z.eqb_refl; simpl; rewrite ?E0; lra.
  - intros H0 H1 H2 H3.
    destruct f; simpl; unfold Src.calculateBonusByProfit,
      Part000.calculateBonusByProfit;
      rewrite (proj2 (Z.eqb_neq _ _) H0), (proj2 (Z.eqb_neq _ _) H1),
        (proj2 (Z.eqb_neq _ _) H2), (proj2 (Z.eqb_neq _ _) H3); simpl;
      rewrite ?E5; lra.
  - destruct f; simpl; unfold Src.calculateBonusByProfit,
      Part000.calculateBonusByProfit; simpl; rewrite ?E15; lra.
  - destruct f; simpl; unfold Src.calculateBonusByProfit,
      Part000.calculateBonusByProfit; simpl;
      repeat constructor; rewrite ?E15, ?E10, ?E0; lra.
Qed.

Lemma bonus_rules_first_match_witness :
  calculateBonusByProfit main_js 0%Z 1%Z profit_200 == 200 * 0.15
  ∧ calculateBonusByProfit part_000 2%Z 4%Z profit_200 == 200 * 0.10
  ∧ calculateBonusByProfit main_js 3%Z 4%Z profit_200 == 0
  ∧ calculateBonusByProfit part_000 3%Z 5%Z profit_200 == 200 * 0.05.
Proof.
  split; [|split; [|split]].
  - destruct (bonus_rules_first_match main_js 0%Z 1%Z profit_200) as (H & _).
    apply H. reflexivity.
  - destruct (bonus_rules_first_match part_000 2%Z 4%Z profit_200) as (_ & H & _).
    apply H. right. reflexivity.
  - destruct (bonus_rules_first_match main_js 3%Z 4%Z profit_200)
      as (_ & _ & H & _).
    apply H; [lia|lia|lia|reflexivity].
  - destruct (bonus_rules_first_match part_000 3%Z 5%Z profit_200)
      as (_ & _ & _ & H & _).
    apply H; lia.
Defined.

(** C7, at its failing inputs.  The guards [if (!seller) return] and
    [if (!product) return] let through an identifier that names a member of
    [Object.prototype].  The callback of a record whose [seller_id] is
    [constructor], the id of no seller, ends with a [TypeError] at the
    record's first resolved item, in both sources; the callback of an item
    whose sku is [toString], the sku of no product, goes on with a cost that
    is no number.  A record and an item under identifiers that are unknown
    and name no such member are skipped, with the heap as it was. *)
Theorem inherited_names_are_not_skipped (f : SourceFile) (calc : RevenueFn)
    (d : DataValue) :
  ("constructor" ∉ Seller.id <$> [alexey])
  ∧ on_record f (sellerIndexOf (newStats <$> [alexey])) (productIndexOf [chair])
      (Func calc) constructor_sale (mkHeap d [newStats alexey])
    = (Throw TypeError, mkHeap d [newStats alexey])
  ∧ ("toString" ∉ Product.sku <$> [chair])
  ∧ (on_item f (productIndexOf [chair]) (Func calc) 0 (Item.mk "toString" 2 30 0)
       (mkHeap d [newStats alexey])).1
    = Beyond
  ∧ on_record f (sellerIndexOf (newStats <$> [alexey])) (productIndexOf [chair])
      (Func calc) orphan_sale (mkHeap d [newStats alexey])
    = (Return tt, mkHeap d [newStats alexey])
  ∧ on_item f (productIndexOf [chair]) (Func calc) 0 (Item.mk "SKU_404" 2 5 0)
      (mkHeap d [newStats alexey])
    = (Return tt, mkHeap d [newStats alexey]).
Proof.
  split; [not_listed|].
  split; [destruct f; by vm_compute|].
  split; [not_listed|].
  split; [destruct f; by vm_compute|].
  split; destruct f; by vm_compute.
Qed.




(** C10.  A call never writes to the caller's dataset, whatever the options
    and whether it returns or throws; and its completion does not depend on
    what the accumulator array held before: the accumulators it works on are
    created by the call. *)
Theorem input_untouched (f : SourceFile) (options : OptionsValue) (h : Heap) :
  data (analyzeSalesData f options h).2 = data h
  ∧ ∀ old, (analyzeSalesData f options (mkHeap (data h) old)).1
           = (analyzeSalesData f options h).1.
Proof.
  destruct (well_formed_cases (data h)) as [Hwf|Hwf].
  2:{ split; [by rewrite invalid_input|].
      intros old. by rewrite !invalid_input. }
  split.
  - destruct f; simpl.
    + rewrite past_data_check_main_js by done.
      destruct (negb (truthy_options options)); [done|].
      rewrite (bind_ok _ _ _ _ _ (throw_if_false _ _)).
      destruct (negb (truthy_slot (calculateRevenue options))
                || negb (truthy_slot (calculateBonus options))); [done|].
      rewrite (bind_ok _ _ _ _ _ (throw_if_false _ _)).
      apply (aggregation_and_ranking_main_js (data h)).
    + rewrite past_data_check_part_000 by done.
      destruct (negb (truthy_options options) || negb (typeof_object options));
        [done|].
      rewrite (bind_ok _ _ _ _ _ (throw_if_false _ _)).
      destruct (negb (truthy_slot (calculateRevenue options))
                || negb (truthy_slot (calculateBonus options))
                || negb (is_function (calculateRevenue options))
                || negb (is_function (calculateBonus options))); [done|].
      rewrite (bind_ok _ _ _ _ _ (throw_if_false _ _)).
      apply (aggregation_and_ranking_part_000 (data h)).
  - intros old. destruct h as [d l]. simpl in *. destruct f; simpl.
    + rewrite !past_data_check_main_js by done.
      destruct (negb (truthy_options options)); [done|].
      rewrite !(bind_ok _ _ _ _ _ (throw_if_false _ _)).
      destruct (negb (truthy_slot (calculateRevenue options))
                || negb (truthy_slot (calculateBonus options))); [done|].
      rewrite !(bind_ok _ _ _ _ _ (throw_if_false _ _)).
      by rewrite !(bind_ok _ _ _ _ _ (setStats_ok _ _)).
    + rewrite !past_data_check_part_000 by done.
      destruct (negb (truthy_options options) || negb (typeof_object options));
        [done|].
      rewrite !(bind_ok _ _ _ _ _ (throw_if_false _ _)).
      destruct (negb (truthy_slot (calculateRevenue options))
                || negb (truthy_slot (calculateBonus options))
                || negb (is_function (calculateRevenue options))
                || negb (is_function (calculateBonus options))); [done|].
      rewrite !(bind_ok _ _ _ _ _ (throw_if_false _ _)).
      by rewrite !(bind_ok _ _ _ _ _ (setStats_ok _ _)).
Qed.

(** * Lemmas for the further properties *)

(** ** Property lists *)

Lemma obj_get_set_eq {V} k (v : V) o : obj_get k (obj_set k v o) = Some v.
Proof.
  induction o as [|[k' v'] o IH]; simpl.
  - by rewrite String.eqb_refl.
  - destruct (String.eqb k k') eqn:E; simpl; rewrite E; [done|exact IH].
Qed.

Lemma obj_get_set_ne {V} k k' (v : V) o :
  k ≠ k' → obj_get k' (obj_set k v o) = obj_get k' o.
Proof.
  intros Hne. induction o as [|[k0 v0] o IH]; simpl.
  - by rewrite (proj2 (String.eqb_neq k' k)).
  - destruct (String.eqb k k0) eqn:E; simpl.
    + apply String.eqb_eq in E as <-.
      by rewrite (proj2 (String.eqb_neq k' k)).
    + by rewrite IH.
Qed.

Lemma obj_get_Some_key {V} k (v : V) o : obj_get k o = Some v → (k, v) ∈ o.
Proof.
  induction o as [|[k' v'] o IH]; simpl; [done|].
  destruct (String.eqb k k') eqn:E.
  - apply String.eqb_eq in E as <-. intros [= <-]. by left.
  - intros H. right. by apply IH.
Qed.

Lemma obj_get_is_Some {V} k (o : PropertyList V) : is_Some (obj_get k o) ↔ k ∈ o.*1.
Proof.
  induction o as [|[k' v'] o IH]; simpl.
  - rewrite elem_of_nil. split; [by intros [? ?]|done].
  - rewrite elem_of_cons. destruct (String.eqb k k') eqn:E.
    + apply String.eqb_eq in E as <-. split; [by left|by eexists].
    + apply String.eqb_neq in E. rewrite IH. split; [by right|].
      by intros [?|?].
Qed.

Lemma obj_set_keys_present {V} k (v : V) o :
  k ∈ o.*1 → (obj_set k v o).*1 = o.*1.
Proof.
  induction o as [|[k' v'] o IH]; csimpl; [by intros ?%elem_of_nil|].
  destruct (String.eqb k k') eqn:E; [done|].
  apply String.eqb_neq in E. intros [?|Hin]%elem_of_cons; [done|].
  csimpl. f_equal. by apply IH.
Qed.

Lemma obj_set_keys_absent {V} k (v : V) o :
  k ∉ o.*1 → (obj_set k v o).*1 = o.*1 ++ [k].
Proof.
  induction o as [|[k' v'] o IH]; csimpl; [done|].
  intros [Hne Hout]%not_elem_of_cons.
  rewrite (proj2 (String.eqb_neq k k')) by done. csimpl. f_equal. by apply IH.
Qed.

Lemma obj_set_set {V} k (v w : V) o :
  obj_set k v (obj_set k w o) = obj_set k v o.
Proof.
  induction o as [|[k' v'] o IH]; simpl.
  - by rewrite String.eqb_refl.
  - destruct (String.eqb k k') eqn:E; simpl; rewrite E; [done|by rewrite IH].
Qed.

(** ** groupBy *)

Lemma grouped_snoc {A} (l : list A) x keyFn :
  grouped (l ++ [x]) keyFn = group_add keyFn (grouped l keyFn) x.
Proof. unfold grouped. by rewrite foldl_app. Qed.

Lemma group_add_keys {A} (keyFn : A → string) acc x :
  (group_add keyFn acc x).*1
  = if decide (keyFn x ∈ acc.*1) then acc.*1 else acc.*1 ++ [keyFn x].
Proof.
  unfold group_add.
  destruct (obj_get (keyFn x) acc) as [g|] eqn:E.
  - assert (keyFn x ∈ acc.*1) as Hin by (apply obj_get_is_Some; by rewrite E).
    rewrite decide_True by done. by apply obj_set_keys_present.
  - assert (keyFn x ∉ acc.*1) as Hout.
    { rewrite <- obj_get_is_Some, E. by intros [? ?]. }
    rewrite decide_False by done. rewrite obj_set_set.
    by apply obj_set_keys_absent.
Qed.

Lemma obj_set_absent {V} k (v : V) o : k ∉ o.*1 → obj_set k v o = o ++ [(k, v)].
Proof.
  induction o as [|[k' v'] o IH]; csimpl; [done|].
  intros [Hne Hout]%not_elem_of_cons.
  rewrite (proj2 (String.eqb_neq k k')) by done. f_equal. by apply IH.
Qed.

Lemma obj_set_present {V} k (v w : V) o :
  obj_get k o = Some w →
  ∃ o1 o2, o = o1 ++ (k, w) :: o2 ∧ obj_set k v o = o1 ++ (k, v) :: o2.
Proof.
  induction o as [|[k' v'] o IH]; simpl; [done|].
  destruct (String.eqb k k') eqn:E.
  - apply String.eqb_eq in E as <-. intros [= <-]. by exists [], o.
  - intros H. destruct (IH H) as (o1 & o2 & -> & ->).
    by exists ((k', v') :: o1), o2.
Qed.

Lemma grouped_keys_NoDup {A} (array : list A) keyFn :
  NoDup (grouped array keyFn).*1.
Proof.
  induction array as [|x l IH] using rev_ind; [constructor|].
  rewrite grouped_snoc, group_add_keys.
  destruct (decide (keyFn x ∈ (grouped l keyFn).*1)); [done|].
  apply NoDup_app. split; [done|]. split; [|apply NoDup_singleton].
  intros k Hk Hk2. apply list_elem_of_singleton in Hk2 as ->. done.
Qed.

Lemma grouped_keys {A} (array : list A) keyFn k :
  k ∈ (grouped array keyFn).*1 ↔ k ∈ keyFn <$> array.
Proof.
  induction array as [|x l IH] using rev_ind; [done|].
  rewrite grouped_snoc, group_add_keys, fmap_app, elem_of_app. simpl.
  rewrite list_elem_of_singleton, <- IH.
  destruct (decide (keyFn x ∈ (grouped l keyFn).*1)) as [Hin|Hout].
  - split; [by left|]. intros [?| ->]; done.
  - by rewrite elem_of_app, list_elem_of_singleton.
Qed.

Lemma grouped_flatten {A} (array : list A) keyFn :
  mjoin (grouped array keyFn).*2 ≡ₚ array.
Proof.
  induction array as [|x l IH] using rev_ind; [done|].
  rewrite grouped_snoc. unfold group_add.
  destruct (obj_get (keyFn x) (grouped l keyFn)) as [g|] eqn:E.
  - destruct (obj_set_present (keyFn x) (g ++ [x]) g _ E) as (o1 & o2 & Ho & ->).
    rewrite Ho in IH. rewrite <- IH.
    rewrite !fmap_app, !join_app. csimpl.
    rewrite <- !(assoc_L (++)). f_equiv. f_equiv.
    apply Permutation_app_comm.
  - assert (keyFn x ∉ (grouped l keyFn).*1) as Hout.
    { rewrite <- obj_get_is_Some, E. by intros [? ?]. }
    rewrite obj_set_set, obj_set_absent by done.
    rewrite fmap_app, join_app. csimpl. by rewrite IH.
Qed.

(** ** Profit and the seller of each entry *)

Lemma items_profit f calc pidx items : ∀ s,
  Stats.profit (foldl (item_step f calc pidx) s items)
  = foldl (fun acc item =>
             match pidx !! Item.sku item with
             | Some product =>
                 acc + (calc item product
                        - Product.purchase_price product * Item.quantity item)
             | None => acc
             end) (Stats.profit s) items.
Proof.
  induction items as [|item items IH]; intros s; simpl; [done|].
  rewrite IH. unfold item_step.
  destruct (pidx !! Item.sku item); [|done]. by destruct f.
Qed.

Lemma records_profit f calc pidx records : ∀ s,
  Stats.profit (foldl (record_effect f calc pidx) s records)
  = foldl (fun acc r =>
             foldl (fun acc item =>
                      match pidx !! Item.sku item with
                      | Some product =>
                          acc + (calc item product
                                 - Product.purchase_price product * Item.quantity item)
                      | None => acc
                      end) acc (Purchase.items r))
      (Stats.profit s) records.
Proof.
  induction records as [|r records IH]; intros s; simpl; [done|].
  rewrite IH. unfold record_effect. rewrite items_profit. by destruct f.
Qed.

Lemma toFixed2_zero x : x == 0 → toFixed2 x == 0.
Proof.
  intros Hx. apply Qle_antisym.
  - assert (toFixed2 0 == 0) as <- by reflexivity.
    apply toFixed2_monotone. lra.
  - assert (toFixed2 0 == 0) as <- by reflexivity.
    apply toFixed2_monotone. lra.
Qed.

Lemma filter_none {A} (P : A → Prop) `{∀ x, Decision (P x)} (l : list A) :
  Forall (fun x => ¬ P x) l → filter P l = [].
Proof.
  induction 1 as [|x l Hx _ IH]; [done|].
  by rewrite filter_cons, decide_False.
Qed.

(** The accumulator of a seller to whose position no record resolves is as
    it was created. *)
Lemma aggregated_untouched f calc (ss : list Seller.t) ps (rs : list Purchase.t) seller :
  seller ∈ ss →
  Forall (fun r => Purchase.seller_id r ≠ Seller.id seller) rs →
  newStats seller ∈ aggregated f calc ss ps rs.
Proof.
  intros Hin Hnone. apply list_elem_of_lookup in Hin as [j Hj].
  apply list_elem_of_lookup. exists j.
  rewrite aggregated_by_seller, list_lookup_imap, Hj. simpl. f_equal.
  rewrite filter_none; [done|].
  eapply Forall_impl; [exact Hnone|]. intros r Hr E. apply Hr.
  apply sellerIndex_lookup in E as (s & Hs & <-).
  rewrite list_lookup_fmap, Hj in Hs. by injection Hs as <-.
Qed.

(** Every accumulator of the aggregation has its entry in the report. *)
Lemma report_entry_of_accumulator f cr cb ss ps rs s :
  s ∈ aggregated f cr ss ps rs →
  ∃ rank,
    report_of f cr cb ss ps rs !! rank
    = Some (entry_of (ranked_seller f cb (Z.of_nat (length ss)) rank s)
              (stored_bonus f (cb (Z.of_nat rank) (Z.of_nat (length ss)) s))).
Proof.
  intros Hin. rewrite <- sorted_aggregated in Hin.
  apply list_elem_of_lookup in Hin as [rank Hrank]. exists rank.
  unfold report_of. rewrite list_lookup_imap, Hrank. simpl.
  by rewrite Array_sort_length, aggregated_length.
Qed.

Lemma reference_bonus_of_no_profit f index total s :
  Stats.profit s == 0 → calculateBonusByProfit f index total s == 0.
Proof.
  intros H0. destruct f; simpl;
    unfold Src.calculateBonusByProfit, Part000.calculateBonusByProfit;
    repeat case_match; rewrite ?H0; reflexivity.
Qed.

(** ** The two sources on the same input *)

Lemma same_but_revenue_item calc pidx s1 s2 item :
  same_but_revenue s1 s2 →
  same_but_revenue (item_step main_js calc pidx s1 item)
                   (item_step part_000 calc pidx s2 item).
Proof.
  unfold same_but_revenue, item_step. intros ->.
  by destruct (pidx !! Item.sku item).
Qed.

Lemma same_but_revenue_items calc pidx items : ∀ s1 s2,
  same_but_revenue s1 s2 →
  same_but_revenue (foldl (item_step main_js calc pidx) s1 items)
                   (foldl (item_step part_000 calc pidx) s2 items).
Proof.
  induction items as [|item items IH]; intros s1 s2 H; simpl; [done|].
  by apply IH, same_but_revenue_item.
Qed.

Lemma same_but_revenue_records calc pidx records : ∀ s1 s2,
  same_but_revenue s1 s2 →
  same_but_revenue (foldl (record_effect main_js calc pidx) s1 records)
                   (foldl (record_effect part_000 calc pidx) s2 records).
Proof.
  induction records as [|r records IH]; intros s1 s2 H; simpl; [done|].
  apply IH. unfold record_effect. apply same_but_revenue_items.
  unfold same_but_revenue in *. by rewrite H.
Qed.

Lemma same_but_revenue_aggregated calc ss ps rs :
  Forall2 same_but_revenue (aggregated main_js calc ss ps rs)
                           (aggregated part_000 calc ss ps rs).
Proof.
  rewrite !aggregated_by_seller. apply Forall2_imap. intros i seller _.
  by apply same_but_revenue_records.
Qed.

Lemma Forall2_sort_insert {A B} (R : A → B → Prop) (cmpA : A → A → Q)
    (cmpB : B → B → Q) x y l k :
  (∀ a b a' b', R a b → R a' b' → cmpA a a' = cmpB b b') →
  R x y → Forall2 R l k →
  Forall2 R (sort_insert cmpA x l) (sort_insert cmpB y k).
Proof.
  intros Hcmp Hxy. induction 1 as [|a b l k Hab Hlk IH]; simpl.
  - by repeat constructor.
  - rewrite (Hcmp x y a b) by done.
    destruct (Qle_bool (cmpB y b) 0); by repeat constructor.
Qed.

Lemma Forall2_Array_sort {A B} (R : A → B → Prop) (cmpA : A → A → Q)
    (cmpB : B → B → Q) l k :
  (∀ a b a' b', R a b → R a' b' → cmpA a a' = cmpB b b') →
  Forall2 R l k →
  Forall2 R (Array_sort cmpA l) (Array_sort cmpB k).
Proof.
  intros Hcmp. induction 1; simpl; [constructor|].
  by apply Forall2_sort_insert.
Qed.

Lemma Forall2_imap_2 {A B C D} (R : A → B → Prop) (P : C → D → Prop)
    (g : nat → A → C) (h : nat → B → D) l k :
  (∀ i a b, R a b → P (g i a) (h i b)) →
  Forall2 R l k → Forall2 P (imap g l) (imap h k).
Proof.
  intros Hgh H. revert g h Hgh.
  induction H as [|a b l k Hab _ IH]; intros g h Hgh; simpl; [constructor|].
  constructor; [by apply Hgh|]. apply IH. intros i. apply Hgh.
Qed.

(** ** The quantities sold, sku by sku *)

Lemma obj_get_of_elem {V} k (v : V) o :
  NoDup o.*1 → (k, v) ∈ o → obj_get k o = Some v.
Proof.
  induction o as [|[k' v'] o IH]; csimpl; [by intros _ ?%elem_of_nil|].
  intros [Hk' Hnd]%NoDup_cons [Heq|Hin]%elem_of_cons.
  - injection Heq as -> ->. by rewrite String.eqb_refl.
  - destruct (String.eqb k k') eqn:E; [|by apply IH].
    apply String.eqb_eq in E as ->. exfalso. apply Hk'.
    apply list_elem_of_fmap. by exists (k', v).
Qed.

Lemma obj_set_NoDup {V} k (v : V) o : NoDup o.*1 → NoDup (obj_set k v o).*1.
Proof.
  intros Hnd. destruct (decide (k ∈ o.*1)) as [Hin|Hout].
  - by rewrite obj_set_keys_present.
  - rewrite obj_set_keys_absent by done.
    apply NoDup_app. split; [done|]. split; [|apply NoDup_singleton].
    intros x Hx ->%list_elem_of_singleton. done.
Qed.

Lemma total_quantity_snoc items item :
  total_quantity (items ++ [item]) = total_quantity items + Item.quantity item.
Proof. unfold total_quantity. by rewrite foldl_app. Qed.

Lemma first_occurrences_snoc ks k :
  first_occurrences (ks ++ [k])
  = if decide (k ∈ first_occurrences ks) then first_occurrences ks
    else first_occurrences ks ++ [k].
Proof. unfold first_occurrences. by rewrite foldl_app. Qed.

Lemma add_sold_keys sku quantity sold :
  plain sku →
  (add_sold sku quantity sold).*1
  = if decide (sku ∈ sold.*1) then sold.*1 else sold.*1 ++ [sku].
Proof.
  intros Hplain. rewrite add_sold_plain by done.
  destruct (obj_get sku sold) as [v|] eqn:E.
  - assert (sku ∈ sold.*1) as Hin by (apply obj_get_is_Some; by rewrite E).
    rewrite decide_True by done.
    destruct (falsy v); rewrite ?obj_set_set; by apply obj_set_keys_present.
  - assert (sku ∉ sold.*1) as Hout.
    { rewrite <- obj_get_is_Some, E. by intros [? ?]. }
    rewrite decide_False by done. rewrite obj_set_set.
    by apply obj_set_keys_absent.
Qed.

Lemma tallies_unknown pidx items item sold :
  pidx !! Item.sku item = None →
  tallies pidx items sold → tallies pidx (items ++ [item]) sold.
Proof.
  intros Hnone (Hnd & Hkeys & H). split; [done|]. split.
  - rewrite filter_app, filter_cons, filter_nil.
    rewrite decide_False, app_nil_r; [done|].
    rewrite Hnone. by intros [? ?].
  - intros sku. simpl.
    rewrite filter_app, filter_cons, filter_nil.
    rewrite decide_False, app_nil_r; [apply H|].
    intros [<- [? ?]]. congruence.
Qed.

Lemma tallies_add_sold pidx items item sold :
  plain (Item.sku item) →
  is_Some (pidx !! Item.sku item) →
  tallies pidx items sold →
  tallies pidx (items ++ [item])
    (add_sold (Item.sku item) (Item.quantity item) sold).
Proof.
  intros Hplain Hknown (Hnd & Hkeys & H). split; [|split].
  - rewrite add_sold_plain by done.
    repeat case_match; by repeat apply obj_set_NoDup.
  - rewrite filter_app, filter_cons, filter_nil.
    rewrite decide_True by done.
    rewrite fmap_app. simpl. rewrite first_occurrences_snoc, <- Hkeys.
    by apply add_sold_keys.
  - intros sku. simpl. rewrite filter_app, filter_cons, filter_nil.
    pose proof (H sku) as Hsku. simpl in Hsku.
    destruct (decide (Item.sku item = sku)) as [<-|Hne].
    + rewrite decide_True by done.
      assert (∀ w, w == total_quantity
                          (filter (fun i => Item.sku i = Item.sku item
                                            ∧ is_Some (pidx !! Item.sku item)) items) →
                   w + Item.quantity item
                   == total_quantity
                        (filter (fun i => Item.sku i = Item.sku item
                                          ∧ is_Some (pidx !! Item.sku item)) items
                         ++ [item])) as Hadd.
      { intros w Hw. rewrite total_quantity_snoc. by rewrite Hw. }
      rewrite add_sold_plain by done.
      destruct (obj_get (Item.sku item) sold) as [v|] eqn:E.
      * destruct Hsku as [_ Hv].
        destruct (falsy v) eqn:Hf; rewrite obj_get_set_eq.
        -- split; [by intros [? ?]%app_eq_nil|].
           apply Hadd. rewrite <- Hv. symmetry. by apply Qeq_bool_iff.
        -- split; [by intros [? ?]%app_eq_nil|]. by apply Hadd.
      * rewrite obj_get_set_eq. split; [by intros [? ?]%app_eq_nil|].
        apply Hadd. by rewrite Hsku.
    + rewrite decide_False by (by intros [? _]). rewrite app_nil_r.
      replace (obj_get sku (add_sold (Item.sku item) (Item.quantity item) sold))
        with (obj_get sku sold); [exact Hsku|].
      rewrite add_sold_plain by done.
      repeat case_match; by rewrite !obj_get_set_ne.
Qed.

Lemma tallies_item f calc pidx items item s :
  plain (Item.sku item) →
  tallies pidx items (Stats.products_sold s) →
  tallies pidx (items ++ [item]) (Stats.products_sold (item_step f calc pidx s item)).
Proof.
  intros Hplain H. unfold item_step.
  destruct (pidx !! Item.sku item) as [product|] eqn:E.
  - replace (Stats.products_sold (item_effect f calc product item s))
      with (add_sold (Item.sku item) (Item.quantity item) (Stats.products_sold s))
      by (by destruct f).
    apply tallies_add_sold; [done|by rewrite E|done].
  - by apply tallies_unknown.
Qed.

Lemma tallies_items f calc pidx items : ∀ seen s,
  Forall (fun item => plain (Item.sku item)) items →
  tallies pidx seen (Stats.products_sold s) →
  tallies pidx (seen ++ items)
    (Stats.products_sold (foldl (item_step f calc pidx) s items)).
Proof.
  induction items as [|item items IH]; intros seen s Hplain H; simpl.
  - by rewrite app_nil_r.
  - apply Forall_cons in Hplain as [Hitem Hplain].
    rewrite cons_middle, app_assoc. apply IH; [done|]. by apply tallies_item.
Qed.

Lemma tallies_records f calc pidx records : ∀ seen s,
  Forall plain_record records →
  tallies pidx seen (Stats.products_sold s) →
  tallies pidx (seen ++ (records ≫= Purchase.items))
    (Stats.products_sold (foldl (record_effect f calc pidx) s records)).
Proof.
  induction records as [|r records IH]; intros seen s Hplain H; simpl.
  - by rewrite app_nil_r.
  - apply Forall_cons in Hplain as [[_ Hitems] Hplain].
    rewrite app_assoc. apply IH; [done|]. unfold record_effect.
    apply tallies_items; [done|]. by destruct f.
Qed.

(** The tally of a seller when the aggregation loop is over. *)
Lemma tallies_of_a_seller f calc pidx seller records :
  Forall plain_record records →
  tallies pidx (records ≫= Purchase.items)
    (Stats.products_sold (foldl (record_effect f calc pidx) (newStats seller) records)).
Proof.
  intros Hplain.
  apply (tallies_records f calc pidx records [] (newStats seller)); [done|].
  split; [constructor|]. split; [done|]. intros sku. by rewrite filter_nil.
Qed.

(** With unique ids, the top products of a report entry are computed from
    the tally of that seller's records. *)
Lemma report_entry_tally f cr cb ss ps rs e :
  NoDup (Seller.id <$> ss) →
  Forall plain_record rs →
  e ∈ report_of f cr cb ss ps rs →
  ∃ sold,
    Report.top_products e = Some (topProducts sold)
    ∧ tallies (productIndexOf ps)
        (filter (fun r => Purchase.seller_id r = Report.seller_id e) rs
         ≫= Purchase.items) sold.
Proof.
  intros Hnd Hplain Hin. apply list_elem_of_lookup in Hin as [rank Hrank].
  apply report_lookup in Hrank as (s & Hin & _ & ->).
  apply list_elem_of_lookup in Hin as [j Hj].
  apply aggregated_lookup in Hj as (seller & Hseller & ->).
  rewrite (resolved_by_id ss j seller rs Hnd Hseller).
  eexists. split; [reflexivity|]. simpl.
  match goal with
  | |- context [foldl ?g ?s0 ?recs] =>
      destruct (records_frame f cr (productIndexOf ps) recs s0) as (-> & _)
  end.
  apply tallies_of_a_seller.
  apply Forall_forall. intros r [_ Hr]%list_elem_of_filter.
  by eapply Forall_forall in Hplain.
Qed.

(** The top products of a tally: distinct skus with their quantities, and
    whatever is left out sold no more than each of the ten listed. *)
Lemma topProducts_of_tally sold :
  NoDup sold.*1 →
  NoDup (TopProduct.sku <$> topProducts sold)
  ∧ (∀ p, p ∈ topProducts sold →
          obj_get (TopProduct.sku p) sold = Some (TopProduct.quantity p))
  ∧ (∀ sku v, obj_get sku sold = Some v →
              sku ∉ TopProduct.sku <$> topProducts sold →
              length (topProducts sold) = 10%nat
              ∧ ∀ p, p ∈ topProducts sold → v <= TopProduct.quantity p).
Proof.
  intros Hnd.
  destruct (topProducts_spec sold) as (all & Hperm & Hsorted & ->).
  assert (TopProduct.sku <$> all ≡ₚ sold.*1) as Hkeys.
  { rewrite Hperm, <- list_fmap_compose. done. }
  split; [|split].
  - apply (sublist_NoDup _ (TopProduct.sku <$> all));
      [by rewrite Hkeys|apply fmap_sublist, sublist_take].
  - intros p Hp. apply obj_get_of_elem; [done|].
    apply elem_of_take in Hp as (i & Hp & _).
    apply list_elem_of_lookup_2 in Hp. rewrite Hperm in Hp.
    apply list_elem_of_fmap in Hp as ([k v] & -> & Hin). done.
  - intros sku v Hget Hout.
    assert (TopProduct.mk sku v ∈ all) as Hin.
    { rewrite Hperm. apply list_elem_of_fmap. exists (sku, v).
      split; [done|]. by apply obj_get_Some_key. }
    rewrite <- (take_drop 10 all) in Hin, Hsorted.
    apply elem_of_app in Hin as [Hin|Hin].
    { exfalso. apply Hout. apply list_elem_of_fmap. by exists (TopProduct.mk sku v). }
    split.
    + rewrite length_take. apply list_elem_of_lookup in Hin as [i Hi].
      apply lookup_lt_Some in Hi. rewrite length_drop in Hi. lia.
    + intros p Hp.
      by apply (StronglySorted_app_1_elem_of _ _ _ _ _ Hsorted Hp Hin).
Qed.

(** ** Ties among the top products *)



Lemma filter_sublist_mono {A} (P : A → Prop) `{∀ x, Decision (P x)} (l1 l2 : list A) :
  l1 `sublist_of` l2 → filter P l1 `sublist_of` filter P l2.
Proof.
  induction 1 as [|x l1 l2 _ IH|x l1 l2 _ IH]; [done| |].
  - rewrite !filter_cons. destruct (decide (P x)); [by constructor|done].
  - rewrite filter_cons. destruct (decide (P x)); [by constructor|done].
Qed.

(** Two elements of equal key that follow one another in the sorted array
    did so before the sort. *)
Lemma Array_sort_ties {A} (key : A → Q) (l : list A) a b :
  [a; b] `sublist_of` Array_sort (descending key) l →
  key a == key b →
  [a; b] `sublist_of` l.
Proof.
  intros Hsub Heq.
  apply (filter_sublist_mono (fun y => Qeq_bool (key y) (key a))) in Hsub.
  rewrite Array_sort_stable in Hsub.
  rewrite filter_cons, decide_True in Hsub
    by (apply Is_true_eq_left, Qeq_bool_iff; reflexivity).
  rewrite filter_cons, decide_True, filter_nil in Hsub
    by (apply Is_true_eq_left, Qeq_bool_iff; by symmetry).
  etrans; [exact Hsub|apply sublist_filter].
Qed.


(** ** Indexes over repeated keys *)

Lemma fromEntries_snoc {V} (l : list (string * V)) kv :
  fromEntries (l ++ [kv]) = <[kv.1 := kv.2]> (fromEntries l).
Proof. unfold fromEntries. by rewrite foldl_app. Qed.

(** The entry found under a key is the last one of that key. *)
Lemma fromEntries_last_wins {V} (l : list (string * V)) k v :
  fromEntries l !! k = Some v
  ↔ ∃ i, l !! i = Some (k, v) ∧ k ∉ (drop (S i) l).*1.
Proof.
  revert v. induction l as [|[k' v'] l IH] using rev_ind; intros v.
  - unfold fromEntries. simpl. rewrite lookup_empty.
    split; [done|]. by intros (i & ? & _).
  - rewrite fromEntries_snoc. simpl.
    destruct (decide (k' = k)) as [->|Hne].
    + rewrite lookup_insert_eq. split.
      * intros [= ->]. exists (length l). split.
        -- by rewrite lookup_app_r, Nat.sub_diag by lia.
        -- rewrite drop_ge; [apply not_elem_of_nil|].
           rewrite length_app. simpl. lia.
      * intros (i & Hi & Hout).
        apply lookup_app_Some in Hi as [Hi|[Hge Hi]].
        -- exfalso. apply Hout.
           apply lookup_lt_Some in Hi.
           rewrite drop_app_le by lia. rewrite fmap_app, elem_of_app.
           right. by left.
        -- destruct (i - length l)%nat; simpl in Hi; [|done].
           by injection Hi as ->.
    + rewrite lookup_insert_ne by done. rewrite IH. split.
      * intros (i & Hi & Hout). exists i.
        split; [by apply lookup_app_l_Some|].
        apply lookup_lt_Some in Hi.
        rewrite drop_app_le by lia. rewrite fmap_app, not_elem_of_app.
        split; [done|]. by intros ->%list_elem_of_singleton.
      * intros (i & Hi & Hout).
        apply lookup_app_Some in Hi as [Hi|[Hge Hi]].
        -- exists i. split; [done|].
           apply lookup_lt_Some in Hi.
           rewrite drop_app_le in Hout by lia.
           rewrite fmap_app, not_elem_of_app in Hout. by destruct Hout.
        -- destruct (i - length l)%nat; simpl in Hi; [|done].
           by injection Hi as ->.
Qed.

(** A seller id resolves to the position of the last seller that has it. *)
Lemma sellerIndex_last_wins (ss : list Seller.t) k j :
  sellerIndexOf (newStats <$> ss) !! k = Some j
  ↔ ∃ seller, ss !! j = Some seller ∧ Seller.id seller = k
              ∧ k ∉ Seller.id <$> drop (S j) ss.
Proof.
  unfold sellerIndexOf. rewrite fromEntries_last_wins.
  assert (∀ i, (drop (S i) (imap (fun ref s => (Stats.id s, ref)) (newStats <$> ss))).*1
               = Seller.id <$> drop (S i) ss) as Hdrop.
  { intros i. rewrite !fmap_drop. f_equal.
    rewrite fmap_imap, imap_fmap. apply list_eq. intros n.
    rewrite list_lookup_imap, list_lookup_fmap. by destruct (ss !! n). }
  split.
  - intros (i & Hi & Hout). rewrite Hdrop in Hout.
    rewrite list_lookup_imap, list_lookup_fmap in Hi.
    destruct (ss !! i) as [seller|] eqn:E; simpl in Hi; [|done].
    injection Hi as <- <-. by exists seller.
  - intros (seller & Hj & <- & Hout). exists j. rewrite Hdrop.
    split; [|done].
    by rewrite list_lookup_imap, list_lookup_fmap, Hj.
Qed.

(** The records that resolve to a position of the seller list. *)
Lemma resolved_records (ss : list Seller.t) j seller (rs : list Purchase.t) :
  ss !! j = Some seller →
  filter (fun r => sellerIndexOf (newStats <$> ss) !! Purchase.seller_id r = Some j) rs
  = if decide (Seller.id seller ∈ Seller.id <$> drop (S j) ss) then []
    else filter (fun r => Purchase.seller_id r = Seller.id seller) rs.
Proof.
  intros Hj. destruct (decide _) as [Hlater|Hlast].
  - apply filter_none, Forall_forall. intros r _ E.
    apply sellerIndex_last_wins in E as (seller' & Hj' & Hid & Hout).
    rewrite Hj in Hj'. injection Hj' as <-. by rewrite <- Hid in Hout.
  - apply list_filter_iff. intros r. rewrite sellerIndex_last_wins. split.
    + intros (seller' & Hj' & <- & _). rewrite Hj in Hj'. by injection Hj' as <-.
    + intros ->. by exists seller.
Qed.

Lemma productIndex_last_wins (ps : list Product.t) k :
  productIndexOf ps !! k = last (filter (fun p => Product.sku p = k) ps).
Proof.
  unfold productIndexOf.
  induction ps as [|p ps IH] using rev_ind; [done|].
  rewrite fmap_app. csimpl. rewrite fromEntries_snoc, filter_app. simpl.
  rewrite filter_cons, filter_nil.
  destruct (decide (Product.sku p = k)) as [<-|Hne].
  - by rewrite lookup_insert_eq, last_snoc.
  - by rewrite lookup_insert_ne, app_nil_r.
Qed.

(** ** groupBy and its reducer *)

Lemma groupBy_snoc {A} (l : list A) x keyFn :
  groupBy (l ++ [x]) keyFn
  = match groupBy l keyFn with
    | Return groups => group_push keyFn groups x
    | Throw e => Throw e
    | Beyond => Beyond
    end.
Proof. unfold groupBy. by rewrite foldl_app. Qed.

(** [groupBy] returns the groups of the pushes when no key names an
    inherited member, and fails at the first key that does. *)
Lemma groupBy_cases {A} (array : list A) keyFn :
  (Forall (fun x => plain (keyFn x)) array
   ∧ groupBy array keyFn = Return (grouped array keyFn))
  ∨ (Exists (fun x => ¬ plain (keyFn x)) array
     ∧ groupBy array keyFn = Throw TypeError).
Proof.
  induction array as [|x l IH] using rev_ind; [left; by split|].
  rewrite groupBy_snoc, grouped_snoc, Forall_app, Exists_app.
  destruct IH as [[Hplain ->]|[Hex ->]]; [|right; split; [by left|done]].
  unfold group_push, group_add, obj_read.
  destruct (obj_get (keyFn x) (grouped l keyFn)) as [group|] eqn:E.
  - left. split; [|done]. split; [done|]. apply Forall_singleton.
    assert (keyFn x ∈ keyFn <$> l) as Hin.
    { apply grouped_keys, obj_get_is_Some. by rewrite E. }
    apply list_elem_of_fmap in Hin as (y & -> & Hy).
    by eapply Forall_forall in Hplain.
  - destruct (inherited (keyFn x)) eqn:Hk.
    + right. split; [|done]. right. apply Exists_cons_hd.
      unfold plain. by rewrite Hk.
    + left. split; [|done]. split; [done|]. by apply Forall_singleton.
Qed.

Lemma groupBy_returns {A} (array : list A) keyFn groups :
  groupBy array keyFn = Return groups →
  groups = grouped array keyFn ∧ Forall (fun x => plain (keyFn x)) array.
Proof.
  intros E. destruct (groupBy_cases array keyFn) as [[Hplain H]|[_ H]];
    rewrite H in E; [|done].
  by injection E as <-.
Qed.

Lemma groupBy_plain {A} (array : list A) keyFn :
  Forall (fun x => plain (keyFn x)) array →
  groupBy array keyFn = Return (grouped array keyFn).
Proof.
  intros Hplain. destruct (groupBy_cases array keyFn) as [[_ H]|[Hex _]]; [done|].
  exfalso. revert Hplain. by apply Exists_not_Forall.
Qed.

Lemma grouped_groups {A} (array : list A) (keyFn : A → string) (k : string) :
  obj_get k (grouped array keyFn)
  = match filter (fun item => keyFn item = k) array with
    | [] => None
    | group => Some group
    end.
Proof.
  induction array as [|x l IH] using rev_ind; [done|].
  rewrite grouped_snoc, filter_app. unfold group_add.
  destruct (decide (keyFn x = k)) as [<-|Hne].
  - rewrite (filter_cons_True _ x []) by done. rewrite filter_nil.
    rewrite IH. destruct (filter _ l) as [|a g] eqn:Hf.
    + by rewrite obj_get_set_eq.
    + by rewrite obj_get_set_eq.
  - rewrite (filter_cons_False _ x []) by done. rewrite filter_nil, app_nil_r.
    rewrite <- IH.
    destruct (obj_get (keyFn x) (grouped l keyFn)); by rewrite !obj_get_set_ne.
Qed.

Lemma grouped_key_order {A} (array : list A) (keyFn : A → string) :
  ∀ (i j : nat) (ki kj : string),
  (grouped array keyFn).*1 !! i = Some ki →
  (grouped array keyFn).*1 !! j = Some kj →
  (i < j)%nat →
  ∃ p, (keyFn <$> array) !! p = Some ki
       ∧ ∀ q, (keyFn <$> array) !! q = Some kj → (p < q)%nat.
Proof.
  induction array as [|x l IH] using rev_ind; intros i j ki kj Hi Hj Hij; [done|].
  rewrite grouped_snoc, group_add_keys in Hi, Hj.
  rewrite fmap_app. simpl.
  assert (∀ p k, (keyFn <$> l) !! p = Some k → (p < length l)%nat) as Hlt.
  { intros p k Hp. apply lookup_lt_Some in Hp. by rewrite length_fmap in Hp. }
  assert (∀ q k, ((keyFn <$> l) ++ [keyFn x]) !! q = Some k →
                 (keyFn <$> l) !! q = Some k ∨ (q = length l ∧ k = keyFn x)) as Hsplit.
  { intros q k Hq. apply lookup_app_Some in Hq as [Hq|[Hge Hq]]; [by left|].
    right. rewrite length_fmap in Hge, Hq.
    destruct (q - length l)%nat as [|n] eqn:Hn; simpl in Hq; [|done].
    injection Hq as <-. split; [lia|done]. }
  destruct (decide (keyFn x ∈ (grouped l keyFn).*1)) as [Hin|Hout].
  - destruct (IH i j ki kj Hi Hj Hij) as (p & Hp & Hall).
    exists p. split; [by apply lookup_app_l_Some|].
    intros q Hq. apply Hsplit in Hq as [Hq|[-> _]]; [by apply Hall|].
    by eapply Hlt.
  - apply lookup_app_Some in Hj as [Hj|[Hge Hj]].
    + assert ((grouped l keyFn).*1 !! i = Some ki) as Hi'.
      { apply lookup_lt_Some in Hj. rewrite lookup_app_l in Hi by lia. done. }
      destruct (IH i j ki kj Hi' Hj Hij) as (p & Hp & Hall).
      exists p. split; [by apply lookup_app_l_Some|].
      intros q Hq. apply Hsplit in Hq as [Hq|[-> ->]]; [by apply Hall|].
      exfalso. apply Hout. by eapply list_elem_of_lookup_2.
    + destruct (j - length (grouped l keyFn).*1)%nat as [|n] eqn:Hn;
        simpl in Hj; [|done].
      injection Hj as <-.
      assert ((grouped l keyFn).*1 !! i = Some ki) as Hi'.
      { rewrite lookup_app_l in Hi by lia. done. }
      assert (ki ∈ keyFn <$> l) as Hki.
      { apply grouped_keys. by eapply list_elem_of_lookup_2. }
      apply list_elem_of_lookup in Hki as [p Hp].
      exists p. split; [by apply lookup_app_l_Some|].
      intros q Hq. apply Hsplit in Hq as [Hq|[-> _]]; [|by eapply Hlt].
      exfalso. apply Hout, grouped_keys. by eapply list_elem_of_lookup_2.
Qed.

(** ** Datasets without the unknown references *)


(** ** The order of the report, by positions in the sellers array *)

Lemma sublist_of_lookups {A} (l : list A) i j x y :
  l !! i = Some x → l !! j = Some y → (i < j)%nat → [x; y] `sublist_of` l.
Proof.
  revert i j. induction l as [|z l IH]; intros i j Hi Hj Hij; [done|].
  destruct i as [|i]; simpl in Hi.
  - injection Hi as ->. apply sublist_skip.
    destruct j as [|j]; [lia|]. simpl in Hj.
    apply list_elem_of_lookup_2, list_elem_of_split in Hj as (l1 & l2 & ->).
    apply sublist_inserts_l. apply sublist_skip, sublist_nil_l.
  - destruct j as [|j]; [lia|]. simpl in Hj.
    apply sublist_cons. apply (IH i j); [done|done|lia].
Qed.

Lemma sublist_elem {A} (l k : list A) x : l `sublist_of` k → x ∈ l → x ∈ k.
Proof.
  induction 1 as [|y l k _ IH|y l k _ IH]; [done| |].
  - intros [->|Hin]%elem_of_cons; [by left|right; by apply IH].
  - intros Hin. right. by apply IH.
Qed.

Lemma sorted_pair {A} (R : relation A) (l : list A) x y :
  StronglySorted R l → [x; y] `sublist_of` l → R x y.
Proof.
  induction 1 as [|z l Hl IH Hz]; intros Hsub.
  - by apply sublist_nil_r in Hsub.
  - apply sublist_cons_r in Hsub as [Hsub|(l' & [= <- <-] & Hsub)]; [by apply IH|].
    eapply Forall_forall; [exact Hz|].
    eapply sublist_elem; [exact Hsub|]. by left.
Qed.

Lemma tagged_positions {A} (l : list A) : (imap pair l).*1 = seq 0 (length l).
Proof.
  apply list_eq. intros i. rewrite list_lookup_fmap, list_lookup_imap.
  destruct (l !! i) as [x|] eqn:E; simpl.
  - symmetry. apply lookup_seq. split; [done|]. by eapply lookup_lt_Some.
  - symmetry. apply lookup_seq_ge. by apply lookup_ge_None.
Qed.

Lemma tagged_lookup {A} (l : list A) (t : nat * A) :
  t ∈ imap pair l ↔ l !! t.1 = Some t.2.
Proof.
  rewrite list_elem_of_lookup. split.
  - intros [i Hi]. rewrite list_lookup_imap in Hi.
    destruct (l !! i) as [x|] eqn:E; simpl in Hi; [|done].
    by injection Hi as <-.
  - intros Ht. exists t.1. rewrite list_lookup_imap, Ht. by destruct t.
Qed.

Lemma seq_ascending n : ∀ k, StronglySorted lt (seq k n).
Proof.
  induction n as [|n IH]; intros k; simpl; [constructor|].
  constructor; [apply IH|]. apply Forall_forall.
  intros m Hm%elem_of_seq. lia.
Qed.

Lemma tagged_pair_ascending {A} (l : list A) (t u : nat * A) :
  [t; u] `sublist_of` imap pair l → (t.1 < u.1)%nat.
Proof.
  intros Hsub. apply (fmap_sublist fst) in Hsub. rewrite tagged_positions in Hsub.
  by apply (sorted_pair lt (seq 0 (length l))); [apply seq_ascending|].
Qed.

(** The stable sort of the accumulators, each with its position in the
    sellers array. *)
Lemma tagged_sort (l : list Stats.t) :
  (Array_sort (descending (fun t : nat * Stats.t => Stats.profit t.2)) (imap pair l)).*2
  = Array_sort by_profit l.
Proof.
  assert (Forall2 (fun (t : nat * Stats.t) s => t.2 = s)
            (Array_sort (descending (fun t : nat * Stats.t => Stats.profit t.2))
               (imap pair l))
            (Array_sort by_profit l)) as H.
  { apply Forall2_Array_sort.
    - by intros a b a' b' <- <-.
    - apply Forall2_same_length_lookup. split; [by rewrite length_imap|].
      intros i t s Ht Hs. rewrite list_lookup_imap, Hs in Ht. by injection Ht as <-. }
  induction H as [|t s ts ss' <- _ IH]; csimpl; [done|]. by rewrite IH.
Qed.

(** * Further properties *)

(** X1.  Whenever [groupBy] returns, it has filed under each key exactly the
    items that [keyFn] maps to it, in input order; a key that no item maps to
    has no property. *)
Theorem groupBy_groups {A} (array : list A) (keyFn : A → string)
    (groups : PropertyList (list A)) (k : string) :
  groupBy array keyFn = Return groups →
  obj_get k groups
  = match filter (fun item => keyFn item = k) array with
    | [] => None
    | group => Some group
    end.
Proof. intros [-> _]%groupBy_returns. apply grouped_groups. Qed.

Lemma groupBy_groups_witness :
  ∃ groups,
    groupBy repeated_sellers Seller.id = Return groups
    ∧ obj_get "seller_2" groups = Some [mikhail; mikhail]
    ∧ obj_get "seller_3" groups = None.
Proof.
  eexists. split; [reflexivity|]. split.
  - exact (groupBy_groups repeated_sellers Seller.id _ "seller_2" eq_refl).
  - exact (groupBy_groups repeated_sellers Seller.id _ "seller_3" eq_refl).
Defined.

(** X2.  When no key names a member of [Object.prototype], [groupBy]
    returns, and it neither loses nor duplicates an item: the groups, put
    end to end, are a rearrangement of the input; no two groups share a key;
    and the keys are those that [keyFn] gives to some item. *)
Theorem groupBy_partition {A} (array : list A) (keyFn : A → string) :
  Forall (fun item => plain (keyFn item)) array →
  ∃ groups,
    groupBy array keyFn = Return groups
    ∧ mjoin groups.*2 ≡ₚ array
    ∧ NoDup groups.*1
    ∧ ∀ k, k ∈ groups.*1 ↔ k ∈ keyFn <$> array.
Proof.
  intros Hplain. eexists. split; [by apply groupBy_plain|].
  split; [apply grouped_flatten|]. split; [apply grouped_keys_NoDup|].
  apply grouped_keys.
Qed.

Lemma groupBy_partition_witness :
  ∃ groups,
    groupBy repeated_sellers Seller.id = Return groups
    ∧ mjoin groups.*2 ≡ₚ repeated_sellers
    ∧ NoDup groups.*1
    ∧ ∀ k, k ∈ groups.*1 ↔ k ∈ Seller.id <$> repeated_sellers.
Proof. apply (groupBy_partition repeated_sellers Seller.id). plain_identifiers. Defined.

(** X3.  Whenever [groupBy] returns, the groups were created in the order
    in which their keys first occur in the input: when one key stands before
    another in the result, it occurs in the input before every occurrence of
    the other. *)
Theorem groupBy_key_order {A} (array : list A) (keyFn : A → string)
    (groups : PropertyList (list A)) (i j : nat) (ki kj : string) :
  groupBy array keyFn = Return groups →
  groups.*1 !! i = Some ki →
  groups.*1 !! j = Some kj →
  (i < j)%nat →
  ∃ p, (keyFn <$> array) !! p = Some ki
       ∧ ∀ q, (keyFn <$> array) !! q = Some kj → (p < q)%nat.
Proof. intros [-> _]%groupBy_returns. apply grouped_key_order. Qed.

Lemma groupBy_key_order_witness :
  ∃ p, (Seller.id <$> repeated_sellers) !! p = Some "seller_2"
       ∧ ∀ q, (Seller.id <$> repeated_sellers) !! q = Some "seller_1" →
              (p < q)%nat.
Proof.
  apply (groupBy_key_order repeated_sellers Seller.id _ 0 1 _ _ eq_refl);
    [reflexivity|reflexivity|lia].
Defined.

(** X4.  The reference revenue strategy is the same function in both
    sources and does not read the product.  For a discount between 0 and 100
    and a non-negative price and quantity, the revenue of an item lies
    between 0 and [sale_price * quantity]; it is the full amount at discount
    0 and nothing at discount 100. *)
Theorem simple_revenue_bounds (f : SourceFile) (item : Item.t) (product : Product.t) :
  0 <= Item.sale_price item → 0 <= Item.quantity item →
  0 <= Item.discount item → Item.discount item <= 100 →
  let revenue := calculateSimpleRevenue f item product in
  0 <= revenue
  ∧ revenue <= Item.sale_price item * Item.quantity item
  ∧ (Item.discount item == 0 → revenue == Item.sale_price item * Item.quantity item)
  ∧ (Item.discount item == 100 → revenue == 0)
  ∧ ∀ f' product', calculateSimpleRevenue f' item product' = revenue.
Proof.
  intros Hp Hq Hd0 Hd100. simpl.
  assert (calculateSimpleRevenue f item product
          = Item.sale_price item * Item.quantity item
            * (1 - Item.discount item / 100)) as -> by (by destruct f).
  assert (Item.discount item / 100 == Item.discount item * (1 # 100)) as Hdiv
    by reflexivity.
  pose proof (Qmult_le_0_compat _ _ Hp Hq) as Hpq.
  set (a := Item.sale_price item * Item.quantity item) in *.
  set (d := Item.discount item) in *.
  rewrite Hdiv.
  split; [|split; [|split; [|split]]].
  - nra.
  - nra.
  - intros ->. lra.
  - intros ->. lra.
  - intros f' product'. by destruct f'.
Qed.

Lemma simple_revenue_bounds_witness :
  0 <= calculateSimpleRevenue main_js (Item.mk "SKU_001" 1 100 10) chair
  ∧ calculateSimpleRevenue main_js (Item.mk "SKU_001" 1 100 10) chair <= 100 * 1.
Proof.
  destruct (simple_revenue_bounds main_js (Item.mk "SKU_001" 1 100 10) chair)
    as (H1 & H2 & _); [by vm_compute..|].
  split; [exact H1|exact H2].
Defined.

(** X5.  The two reference bonus strategies compute the same bonus.  It
    never exceeds 15% of the profit: for a non-negative profit it lies
    between 0 and 15% of it, and for a negative profit it is negative or
    zero, down to 15% of the profit. *)
Theorem bonus_within_fifteen_percent (f : SourceFile) (index total : Z)
    (seller : Stats.t) :
  let bonus := calculateBonusByProfit f index total seller in
  Src.calculateBonusByProfit index total seller
  == Part000.calculateBonusByProfit index total seller
  ∧ (0 <= Stats.profit seller → 0 <= bonus ∧ bonus <= Stats.profit seller * 0.15)
  ∧ (Stats.profit seller <= 0 → Stats.profit seller * 0.15 <= bonus ∧ bonus <= 0).
Proof.
  assert (15 / 100 == 0.15) as E15 by reflexivity.
  assert (10 / 100 == 0.10) as E10 by reflexivity.
  assert (0 / 100 == 0) as E0 by reflexivity.
  assert (5 / 100 == 0.05) as E5 by reflexivity.
  simpl. split; [|split]; [|intros Hp|intros Hp].
  - unfold Src.calculateBonusByProfit, Part000.calculateBonusByProfit. simpl.
    destruct (index =? 0)%Z; [rewrite E15; lra|].
    destruct ((index =? 1)%Z || (index =? 2)%Z); [rewrite E10; lra|].
    destruct (index =? total - 1)%Z; [rewrite E0; lra|rewrite E5; lra].
  - destruct f; simpl;
      unfold Src.calculateBonusByProfit, Part000.calculateBonusByProfit; simpl;
      destruct (index =? 0)%Z; rewrite ?E15; try lra;
      destruct ((index =? 1)%Z || (index =? 2)%Z); rewrite ?E10; try lra;
      destruct (index =? total - 1)%Z; rewrite ?E0, ?E5; lra.
  - destruct f; simpl;
      unfold Src.calculateBonusByProfit, Part000.calculateBonusByProfit; simpl;
      destruct (index =? 0)%Z; rewrite ?E15; try lra;
      destruct ((index =? 1)%Z || (index =? 2)%Z); rewrite ?E10; try lra;
      destruct (index =? total - 1)%Z; rewrite ?E0, ?E5; lra.
Qed.

Lemma bonus_within_fifteen_percent_witness :
  0 <= calculateBonusByProfit part_000 5%Z 9%Z profit_200
  ∧ calculateBonusByProfit part_000 5%Z 9%Z profit_200 <= 200 * 0.15.
Proof.
  destruct (bonus_within_fifteen_percent part_000 5%Z 9%Z profit_200)
    as (_ & H & _).
  apply H. by vm_compute.
Defined.

(** X6.  For a well-formed dataset with unique seller ids, whose
    identifiers (the ids of sellers and records, the skus of products and
    items) name no member of [Object.prototype], and two strategy functions,
    in both sources the profit of a report entry is the rounded margin of
    that seller's records: over their items of known products, in input
    order, the revenue strategy's result minus [purchase_price * quantity]
    of the product the sku resolves to. *)
Theorem profit_of_a_seller (f : SourceFile) (calcRevenue : RevenueFn)
    (calcBonus : BonusFn) (ss : list Seller.t) (ps : list Product.t)
    (rs : list Purchase.t) (old : list Stats.t) :
  ss ≠ [] → ps ≠ [] → rs ≠ [] →
  plain_dataset ss ps rs →
  NoDup (Seller.id <$> ss) →
  ∃ report h',
    analyzeSalesData f (strategies calcRevenue calcBonus)
      (mkHeap (dataset ss ps rs) old) = (Return report, h')
    ∧ ∀ e, e ∈ report →
        Report.profit e
        = toFixed2 (margin calcRevenue (productIndexOf ps)
                      (filter (fun r => Purchase.seller_id r = Report.seller_id e) rs)).
Proof.
  intros Hs Hp Hr Hids Hnd. eexists _, _. split; [by apply run_ok|].
  intros e He. apply report_entry_origin in He as (s & -> & _ & -> & _); [|done].
  by rewrite records_profit.
Qed.

Lemma profit_of_a_seller_witness :
  ∃ report h',
    analyzeSalesData main_js
      (strategies Src.calculateSimpleRevenue Src.calculateBonusByProfit)
      (mkHeap (dataset [alexey; mikhail] [chair; lamp]
                 [discounted_sale; mixed_sale; orphan_sale]) [])
    = (Return report, h')
    ∧ ∀ e, e ∈ report →
        Report.profit e
        = toFixed2 (margin Src.calculateSimpleRevenue (productIndexOf [chair; lamp])
                      (filter (fun r => Purchase.seller_id r = Report.seller_id e)
                         [discounted_sale; mixed_sale; orphan_sale])).
Proof.
  apply (profit_of_a_seller main_js Src.calculateSimpleRevenue
           Src.calculateBonusByProfit [alexey; mikhail] [chair; lamp]
           [discounted_sale; mixed_sale; orphan_sale] []); [done|done|done|plain_identifiers|].
  apply NoDup_cons. split; [|apply NoDup_singleton].
  rewrite list_elem_of_singleton. discriminate.
Defined.

(** X7.  For a well-formed dataset with unique seller ids, whose
    identifiers name no member of [Object.prototype], and two strategy
    functions, the [sales_count] of a report entry is the number of purchase
    records carrying that seller's id, whatever their items. *)
Theorem sales_count_of_a_seller (f : SourceFile) (calcRevenue : RevenueFn)
    (calcBonus : BonusFn) (ss : list Seller.t) (ps : list Product.t)
    (rs : list Purchase.t) (old : list Stats.t) :
  ss ≠ [] → ps ≠ [] → rs ≠ [] →
  plain_dataset ss ps rs →
  NoDup (Seller.id <$> ss) →
  ∃ report h',
    analyzeSalesData f (strategies calcRevenue calcBonus)
      (mkHeap (dataset ss ps rs) old) = (Return report, h')
    ∧ ∀ e, e ∈ report →
        Report.sales_count e
        = length (filter (fun r => Purchase.seller_id r = Report.seller_id e) rs).
Proof.
  intros Hs Hp Hr Hids Hnd. eexists _, _. split; [by apply run_ok|].
  intros e He. apply report_entry_origin in He as (s & -> & _ & _ & ->); [|done].
  match goal with
  | |- context [foldl ?g ?s0 ?recs] =>
      destruct (records_frame f calcRevenue (productIndexOf ps) recs s0)
        as (_ & _ & -> & _)
  end.
  done.
Qed.

Lemma sales_count_of_a_seller_witness :
  ∃ report h',
    analyzeSalesData part_000
      (strategies Part000.calculateSimpleRevenue Part000.calculateBonusByProfit)
      (mkHeap (dataset [alexey; mikhail] [chair; lamp]
                 [discounted_sale; mixed_sale; orphan_sale]) [])
    = (Return report, h')
    ∧ ∀ e, e ∈ report →
        Report.sales_count e
        = length (filter (fun r => Purchase.seller_id r = Report.seller_id e)
                    [discounted_sale; mixed_sale; orphan_sale]).
Proof.
  apply (sales_count_of_a_seller part_000 Part000.calculateSimpleRevenue
           Part000.calculateBonusByProfit [alexey; mikhail] [chair; lamp]
           [discounted_sale; mixed_sale; orphan_sale] []); [done|done|done|plain_identifiers|].
  apply NoDup_cons. split; [|apply NoDup_singleton].
  rewrite list_elem_of_singleton. discriminate.
Defined.

(** X8.  For a well-formed dataset whose identifiers name no member of
    [Object.prototype] and two strategy functions, a seller whose id no
    purchase record carries still has an entry in the report: revenue,
    profit and sales count are zero and the list of top products is empty;
    with either reference bonus strategy the bonus is zero too, at whatever
    rank the entry is. *)
Theorem seller_without_sales (f : SourceFile) (calcRevenue : RevenueFn)
    (calcBonus : BonusFn) (ss : list Seller.t) (ps : list Product.t)
    (rs : list Purchase.t) (old : list Stats.t) (seller : Seller.t) :
  ss ≠ [] → ps ≠ [] → rs ≠ [] →
  plain_dataset ss ps rs →
  seller ∈ ss →
  Forall (fun r => Purchase.seller_id r ≠ Seller.id seller) rs →
  ∃ report h',
    analyzeSalesData f (strategies calcRevenue calcBonus)
      (mkHeap (dataset ss ps rs) old) = (Return report, h')
    ∧ ∃ e, e ∈ report
        ∧ Report.seller_id e = Seller.id seller
        ∧ Report.revenue e == 0 ∧ Report.profit e == 0
        ∧ Report.sales_count e = 0%nat
        ∧ Report.top_products e = Some []
        ∧ (∀ f', calcBonus = calculateBonusByProfit f' → Report.bonus e == 0).
Proof.
  intros Hs Hp Hr Hids Hin Hnone. eexists _, _. split; [by apply run_ok|].
  destruct (report_entry_of_accumulator f calcRevenue calcBonus ss ps rs
              (newStats seller)) as [rank Hrank];
    [by apply aggregated_untouched|].
  eexists. split; [by eapply list_elem_of_lookup_2|]. simpl.
  split; [done|]. split; [by apply toFixed2_zero|].
  split; [by apply toFixed2_zero|]. split; [done|]. split; [done|].
  intros f' ->. apply toFixed2_zero.
  assert (calculateBonusByProfit f' (Z.of_nat rank) (Z.of_nat (length ss))
            (newStats seller) == 0) as H0
    by (by apply reference_bonus_of_no_profit).
  destruct f; simpl; [exact H0|by apply toFixed2_zero].
Qed.

Lemma seller_without_sales_witness :
  ∃ report h',
    analyzeSalesData part_000
      (strategies Part000.calculateSimpleRevenue Part000.calculateBonusByProfit)
      (mkHeap (dataset [alexey; mikhail] [chair; lamp] [discounted_sale; orphan_sale])
         [])
    = (Return report, h')
    ∧ ∃ e, e ∈ report
        ∧ Report.seller_id e = Seller.id mikhail
        ∧ Report.revenue e == 0 ∧ Report.profit e == 0
        ∧ Report.sales_count e = 0%nat
        ∧ Report.top_products e = Some []
        ∧ (∀ f', Part000.calculateBonusByProfit = calculateBonusByProfit f' →
                 Report.bonus e == 0).
Proof.
  apply (seller_without_sales part_000 Part000.calculateSimpleRevenue
           Part000.calculateBonusByProfit [alexey; mikhail] [chair; lamp]
           [discounted_sale; orphan_sale] [] mikhail); [done|done|done|plain_identifiers| |].
  - apply list_elem_of_lookup. by exists 1%nat.
  - repeat constructor; discriminate.
Defined.

(** X9.  For a well-formed dataset whose identifiers name no member of
    [Object.prototype], a revenue strategy and a bonus strategy that does
    not read the accumulator's revenue (as neither reference strategy does),
    main.js and part_000 return reports of the same sellers in the same
    order that agree, entry by entry, in every field except the revenue: the
    name, the profit, the sales count, the top products and the bonus. *)
Theorem sources_differ_in_revenue_only (calcRevenue : RevenueFn)
    (calcBonus : BonusFn) (ss : list Seller.t) (ps : list Product.t)
    (rs : list Purchase.t) (old : list Stats.t) :
  ss ≠ [] → ps ≠ [] → rs ≠ [] →
  plain_dataset ss ps rs →
  (∀ index total s v,
     calcBonus index total (Stats.set_revenue v s) = calcBonus index total s) →
  ∃ report1 h1 report2 h2,
    Src.analyzeSalesData (strategies calcRevenue calcBonus)
      (mkHeap (dataset ss ps rs) old) = (Return report1, h1)
    ∧ Part000.analyzeSalesData (strategies calcRevenue calcBonus)
        (mkHeap (dataset ss ps rs) old) = (Return report2, h2)
    ∧ Forall2 same_entry_but_revenue report1 report2.
Proof.
  intros Hs Hp Hr Hids Hcb. eexists _, _, _, _.
  split; [by apply (run_ok main_js)|]. split; [by apply (run_ok part_000)|].
  unfold report_of. rewrite !Array_sort_length, !aggregated_length.
  eapply Forall2_imap_2;
    [|apply (Forall2_Array_sort same_but_revenue);
      [|apply same_but_revenue_aggregated]].
  - intros i s1 s2 ->. unfold same_entry_but_revenue, entry_of. simpl.
    by rewrite toFixed2_idempotent, Hcb.
  - intros a b a' b' -> ->. done.
Qed.

Lemma sources_differ_in_revenue_only_witness :
  ∃ report1 h1 report2 h2,
    Src.analyzeSalesData
      (strategies Src.calculateSimpleRevenue Src.calculateBonusByProfit)
      (mkHeap (dataset [alexey; mikhail] [chair; lamp]
                 [discounted_sale; mixed_sale; orphan_sale]) [])
    = (Return report1, h1)
    ∧ Part000.analyzeSalesData
        (strategies Src.calculateSimpleRevenue Src.calculateBonusByProfit)
        (mkHeap (dataset [alexey; mikhail] [chair; lamp]
                   [discounted_sale; mixed_sale; orphan_sale]) [])
      = (Return report2, h2)
    ∧ Forall2 same_entry_but_revenue report1 report2.
Proof.
  apply (sources_differ_in_revenue_only Src.calculateSimpleRevenue
           Src.calculateBonusByProfit [alexey; mikhail] [chair; lamp]
           [discounted_sale; mixed_sale; orphan_sale] []);
    first [done|plain_identifiers].
Defined.

(** X10.  For a well-formed dataset with unique seller ids, whose
    identifiers name no member of [Object.prototype], and two strategy
    functions, the top products of a report entry are that seller's best
    sellers: they have distinct skus; each is listed with the total quantity
    of the seller's items of that sku, over the records carrying the
    seller's id and the skus of the catalogue; and a sku the seller sold
    that is not listed is left out only when ten are listed, each with a
    quantity that is not smaller. *)
Theorem top_products_are_best_sellers (f : SourceFile) (calcRevenue : RevenueFn)
    (calcBonus : BonusFn) (ss : list Seller.t) (ps : list Product.t)
    (rs : list Purchase.t) (old : list Stats.t) :
  ss ≠ [] → ps ≠ [] → rs ≠ [] →
  plain_dataset ss ps rs →
  NoDup (Seller.id <$> ss) →
  ∃ report h',
    analyzeSalesData f (strategies calcRevenue calcBonus)
      (mkHeap (dataset ss ps rs) old) = (Return report, h')
    ∧ ∀ e, e ∈ report →
        let sold sku :=
          sales_of sku (productIndexOf ps)
            (filter (fun r => Purchase.seller_id r = Report.seller_id e) rs) in
        ∃ top,
          Report.top_products e = Some top
          ∧ NoDup (TopProduct.sku <$> top)
          ∧ (∀ p, p ∈ top →
                  sold (TopProduct.sku p) ≠ []
                  ∧ TopProduct.quantity p == total_quantity (sold (TopProduct.sku p)))
          ∧ (∀ sku, sold sku ≠ [] → sku ∉ TopProduct.sku <$> top →
                    length top = 10%nat
                    ∧ ∀ p, p ∈ top →
                           total_quantity (sold sku) <= TopProduct.quantity p).
Proof.
  intros Hs Hp Hr Hids Hnd. eexists _, _. split; [by apply run_ok|].
  intros e He sold.
  apply report_entry_tally in He as (tally & -> & Hkeys & _ & Htally);
    [|done|apply Hids].
  destruct (topProducts_of_tally tally Hkeys) as (Hdistinct & Hlisted & Hleft).
  exists (topProducts tally). split; [done|]. split; [done|]. split.
  - intros p Hin. specialize (Hlisted p Hin).
    specialize (Htally (TopProduct.sku p)). simpl in Htally.
    by rewrite Hlisted in Htally.
  - intros sku Hsold Hout.
    specialize (Htally sku). simpl in Htally.
    destruct (obj_get sku tally) as [v|] eqn:E; [|done].
    destruct Htally as [_ Hv].
    destruct (Hleft sku v E Hout) as [Hlen Hle]. split; [done|].
    intros p Hin. unfold sold, sales_of. rewrite <- Hv. by apply Hle.
Qed.

Lemma top_products_are_best_sellers_witness :
  ∃ report h',
    analyzeSalesData main_js
      (strategies Src.calculateSimpleRevenue Src.calculateBonusByProfit)
      (mkHeap (dataset [alexey; mikhail] [chair; lamp]
                 [discounted_sale; mixed_sale; orphan_sale]) [])
    = (Return report, h')
    ∧ ∀ e, e ∈ report →
        let sold sku :=
          sales_of sku (productIndexOf [chair; lamp])
            (filter (fun r => Purchase.seller_id r = Report.seller_id e)
               [discounted_sale; mixed_sale; orphan_sale]) in
        ∃ top,
          Report.top_products e = Some top
          ∧ NoDup (TopProduct.sku <$> top)
          ∧ (∀ p, p ∈ top →
                  sold (TopProduct.sku p) ≠ []
                  ∧ TopProduct.quantity p == total_quantity (sold (TopProduct.sku p)))
          ∧ (∀ sku, sold sku ≠ [] → sku ∉ TopProduct.sku <$> top →
                    length top = 10%nat
                    ∧ ∀ p, p ∈ top →
                           total_quantity (sold sku) <= TopProduct.quantity p).
Proof.
  apply (top_products_are_best_sellers main_js Src.calculateSimpleRevenue
           Src.calculateBonusByProfit [alexey; mikhail] [chair; lamp]
           [discounted_sale; mixed_sale; orphan_sale] []); [done|done|done|plain_identifiers|].
  apply NoDup_cons. split; [|apply NoDup_singleton].
  rewrite list_elem_of_singleton. discriminate.
Defined.



(** X12.  For a well-formed dataset whose identifiers name no member of
    [Object.prototype] and two strategy functions, the report has one entry
    per element of [sellers], named [first_name + " " + last_name], also
    when ids repeat.  An id that several sellers share resolves to the last
    of them: that seller's entry counts every purchase record carrying the
    id, and the entries of the earlier ones count none. *)
Theorem repeated_ids_last_seller_takes_all (f : SourceFile) (calcRevenue : RevenueFn)
    (calcBonus : BonusFn) (ss : list Seller.t) (ps : list Product.t)
    (rs : list Purchase.t) (old : list Stats.t) :
  ss ≠ [] → ps ≠ [] → rs ≠ [] →
  plain_dataset ss ps rs →
  ∃ report h',
    analyzeSalesData f (strategies calcRevenue calcBonus)
      (mkHeap (dataset ss ps rs) old) = (Return report, h')
    ∧ (fun e => (Report.seller_id e, Report.name e, Report.sales_count e)) <$> report
      ≡ₚ imap (fun j seller =>
                 (Seller.id seller,
                  Seller.first_name seller +:+ " " +:+ Seller.last_name seller,
                  if decide (Seller.id seller ∈ Seller.id <$> drop (S j) ss)
                  then 0%nat
                  else length (filter (fun r => Purchase.seller_id r = Seller.id seller)
                                 rs)))
              ss.
Proof.
  intros Hs Hp Hr Hids. eexists _, _. split; [by apply run_ok|].
  rewrite (report_view _ (fun s => (Stats.id s, Stats.name s, Stats.sales_count s)))
    by done.
  rewrite (ranked_view (fun s => (Stats.id s, Stats.name s, Stats.sales_count s)))
    by done.
  rewrite sorted_aggregated, aggregated_by_seller, fmap_imap.
  match goal with |- ?l ≡ₚ ?r => replace l with r; [done|symmetry] end.
  apply imap_ext. intros j seller Hj. simpl.
  match goal with
  | |- context [foldl ?g ?s0 ?recs] =>
      destruct (records_frame f calcRevenue (productIndexOf ps) recs s0)
        as (-> & -> & -> & _)
  end.
  simpl. f_equal. rewrite (resolved_records ss j seller rs Hj).
  by destruct (decide _).
Qed.

Lemma repeated_ids_last_seller_takes_all_witness :
  ∃ report h',
    analyzeSalesData main_js
      (strategies Src.calculateSimpleRevenue Src.calculateBonusByProfit)
      (mkHeap (dataset repeated_sellers [chair; lamp]
                 [discounted_sale; mixed_sale; orphan_sale]) [])
    = (Return report, h')
    ∧ (fun e => (Report.seller_id e, Report.name e, Report.sales_count e)) <$> report
      ≡ₚ imap (fun j seller =>
                 (Seller.id seller,
                  Seller.first_name seller +:+ " " +:+ Seller.last_name seller,
                  if decide (Seller.id seller
                             ∈ Seller.id <$> drop (S j) repeated_sellers)
                  then 0%nat
                  else length (filter (fun r => Purchase.seller_id r = Seller.id seller)
                                 [discounted_sale; mixed_sale; orphan_sale])))
              repeated_sellers.
Proof.
  apply (repeated_ids_last_seller_takes_all main_js Src.calculateSimpleRevenue
           Src.calculateBonusByProfit repeated_sellers [chair; lamp]
           [discounted_sale; mixed_sale; orphan_sale] []);
    first [done|plain_identifiers].
Defined.

(** X13.  When no sku of the catalogue names a member of
    [Object.prototype], the index that main.js builds with [reduce] is the
    one that part_000 builds with [Object.fromEntries].  In it, a sku of an
    item that names no such member and that several products share resolves
    to the last of them, and to [undefined] when no product has it.  The
    callback of such an item then charges the purchase price of that
    product: it adds the revenue strategy's result for the item and that
    product, minus [purchase_price * quantity], to the profit of the
    seller's accumulator, and leaves the profit alone when no product has
    the sku. *)
Theorem repeated_skus_last_product_wins (f : SourceFile) (calc : RevenueFn)
    (ps : list Product.t) (item : Item.t) (d : DataValue) (l : list Stats.t)
    (ref : nat) (s : Stats.t) :
  l !! ref = Some s →
  plain (Item.sku item) →
  Forall (fun p => plain (Product.sku p)) ps →
  reduce_to_object ((fun p => (Product.sku p, p)) <$> ps) = Some (productIndexOf ps)
  ∧ index_get (productIndexOf ps) (Item.sku item)
    = match last (filter (fun p => Product.sku p = Item.sku item) ps) with
      | Some product => Own product
      | None => Undefined
      end
  ∧ ∃ s',
      on_item f (productIndexOf ps) (Func calc) ref item (mkHeap d l)
      = (Return tt, mkHeap d (<[ref := s']> l))
      ∧ Stats.profit s'
        = match last (filter (fun p => Product.sku p = Item.sku item) ps) with
          | Some product =>
              Stats.profit s
              + (calc item product
                 - Product.purchase_price product * Item.quantity item)
          | None => Stats.profit s
          end.
Proof.
  intros Hs Hitem Hskus.
  split; [by apply reduce_to_object_plain, plain_product_entries|].
  split; [by rewrite index_get_plain, productIndex_last_wins|].
  eexists. split; [by apply item_callback_at|].
  unfold item_step. rewrite productIndex_last_wins.
  destruct (last _); [|done]. by destruct f.
Qed.

Lemma repeated_skus_last_product_wins_witness :
  reduce_to_object
    ((fun p => (Product.sku p, p)) <$> [chair; lamp; Product.mk "SKU_001" 70])
  = Some (productIndexOf [chair; lamp; Product.mk "SKU_001" 70])
  ∧ index_get (productIndexOf [chair; lamp; Product.mk "SKU_001" 70]) "SKU_001"
    = Own (Product.mk "SKU_001" 70)
  ∧ ∃ s',
      on_item main_js (productIndexOf [chair; lamp; Product.mk "SKU_001" 70])
        (Func Src.calculateSimpleRevenue) 0 (Item.mk "SKU_001" 1 100 10)
        (mkHeap one_seller_data [profit_200])
      = (Return tt, mkHeap one_seller_data (<[0%nat := s']> [profit_200]))
      ∧ Stats.profit s'
        = 200 + (Src.calculateSimpleRevenue (Item.mk "SKU_001" 1 100 10)
                   (Product.mk "SKU_001" 70)
                 - 70 * 1).
Proof.
  destruct (repeated_skus_last_product_wins main_js Src.calculateSimpleRevenue
              [chair; lamp; Product.mk "SKU_001" 70] (Item.mk "SKU_001" 1 100 10)
              one_seller_data [profit_200] 0 profit_200 eq_refl eq_refl)
    as (Hreduce & Hindex & Hitem); [plain_identifiers|].
  split; [exact Hreduce|]. split; [exact Hindex|exact Hitem].
Defined.

(** X14.  [groupBy] throws a [TypeError] as soon as [keyFn] gives some item
    a key that names a member of [Object.prototype] ([toString],
    [constructor], ...): [acc[key]] then reads the inherited member, which
    is truthy and has no [push]. *)
Theorem groupBy_fails_on_inherited_key {A} (array : list A) (keyFn : A → string) :
  Exists (fun item => ¬ plain (keyFn item)) array →
  groupBy array keyFn = Throw TypeError.
Proof.
  intros Hex. destruct (groupBy_cases array keyFn) as [[Hplain _]|[_ H]]; [|done].
  apply Exists_exists in Hex as (item & Hin & Hitem).
  by eapply Forall_forall in Hplain.
Qed.

Lemma groupBy_fails_on_inherited_key_witness :
  groupBy [discounted_sale; constructor_sale] Purchase.seller_id = Throw TypeError.
Proof.
  apply groupBy_fails_on_inherited_key. apply Exists_cons_tl, Exists_cons_hd.
  discriminate.
Defined.

(** X15.  For a well-formed dataset whose seller ids are unique, whose
    identifiers name no member of [Object.prototype], and two strategy
    functions, the call returns a report with exactly one entry per input
    seller: the ids of the report are a rearrangement of the ids of the
    sellers, without duplicates. *)
Theorem one_entry_per_seller (f : SourceFile) (calcRevenue : RevenueFn)
    (calcBonus : BonusFn) (ss : list Seller.t) (ps : list Product.t)
    (rs : list Purchase.t) (old : list Stats.t) :
  ss ≠ [] → ps ≠ [] → rs ≠ [] →
  plain_dataset ss ps rs →
  NoDup (Seller.id <$> ss) →
  ∃ report h',
    analyzeSalesData f (strategies calcRevenue calcBonus)
      (mkHeap (dataset ss ps rs) old) = (Return report, h')
    ∧ Report.seller_id <$> report ≡ₚ Seller.id <$> ss
    ∧ NoDup (Report.seller_id <$> report)
    ∧ length report = length ss.
Proof.
  intros Hs Hp Hr Hids Hnd. eexists _, _. split; [by apply run_ok|].
  assert (Report.seller_id <$> report_of f calcRevenue calcBonus ss ps rs
          ≡ₚ Seller.id <$> ss) as Hperm.
  { rewrite (report_view Report.seller_id Stats.id) by done.
    rewrite (ranked_view Stats.id) by done.
    by rewrite sorted_aggregated, aggregated_ids. }
  split; [exact Hperm|]. split.
  - by rewrite Hperm.
  - rewrite <- (length_fmap Report.seller_id), Hperm. by rewrite length_fmap.
Qed.

Lemma one_entry_per_seller_witness :
  ∃ report h',
    analyzeSalesData part_000
      (strategies Part000.calculateSimpleRevenue Part000.calculateBonusByProfit)
      (mkHeap (dataset [alexey; mikhail] [chair; lamp]
                 [discounted_sale; mixed_sale; orphan_sale]) [])
    = (Return report, h')
    ∧ Report.seller_id <$> report ≡ₚ Seller.id <$> [alexey; mikhail]
    ∧ NoDup (Report.seller_id <$> report)
    ∧ length report = length [alexey; mikhail].
Proof.
  apply (one_entry_per_seller part_000); [done|done|done|plain_identifiers|].
  apply NoDup_cons. split; [|apply NoDup_singleton].
  rewrite list_elem_of_singleton. discriminate.
Defined.

(** X16.  For a well-formed dataset whose identifiers name no member of
    [Object.prototype] and two strategy functions, the report arranges the
    positions of the sellers array: each position occurs once, the entry at
    a rank carries the id and the name of the seller at its position and the
    rounded profit of that seller's accumulator, the profits as computed at
    sort time descend along the report, and so do the rounded profits; of
    two sellers whose accumulators have the same profit, the one that stands
    first in the sellers array stands first in the report. *)
Theorem report_sorted_by_profit_stably (f : SourceFile) (calcRevenue : RevenueFn)
    (calcBonus : BonusFn) (ss : list Seller.t) (ps : list Product.t)
    (rs : list Purchase.t) (old : list Stats.t) :
  ss ≠ [] → ps ≠ [] → rs ≠ [] →
  plain_dataset ss ps rs →
  ∃ report h' (order : list nat),
    analyzeSalesData f (strategies calcRevenue calcBonus)
      (mkHeap (dataset ss ps rs) old) = (Return report, h')
    ∧ order ≡ₚ seq 0 (length ss)
    ∧ Forall2
        (fun e j =>
           ∃ seller acc,
             ss !! j = Some seller
             ∧ aggregated f calcRevenue ss ps rs !! j = Some acc
             ∧ Report.seller_id e = Seller.id seller
             ∧ Report.name e
               = Seller.first_name seller +:+ " " +:+ Seller.last_name seller
             ∧ Report.profit e = toFixed2 (Stats.profit acc))
        report order
    ∧ StronglySorted (flip Qle) (Report.profit <$> report)
    ∧ ∀ i j pi pj acci accj,
        (i < j)%nat →
        order !! i = Some pi → order !! j = Some pj →
        aggregated f calcRevenue ss ps rs !! pi = Some acci →
        aggregated f calcRevenue ss ps rs !! pj = Some accj →
        Stats.profit accj <= Stats.profit acci
        ∧ (Stats.profit acci == Stats.profit accj → (pi < pj)%nat).
Proof.
  intros Hs Hp Hr Hids.
  set (agg := aggregated f calcRevenue ss ps rs).
  set (key := fun t : nat * Stats.t => Stats.profit t.2).
  set (sorted := Array_sort (descending key) (imap pair agg)).
  assert (sorted.*2 = Array_sort by_profit agg) as Hsorted by apply tagged_sort.
  assert (∀ i p, sorted.*1 !! i = Some p →
                 ∃ acc, sorted !! i = Some (p, acc) ∧ agg !! p = Some acc) as Hat.
  { intros i p Hi. rewrite list_lookup_fmap in Hi.
    destruct (sorted !! i) as [[p' acc]|] eqn:E; simpl in Hi; [|done].
    injection Hi as ->. exists acc. split; [done|].
    apply list_elem_of_lookup_2 in E. unfold sorted in E.
    rewrite Array_sort_perm in E. by apply tagged_lookup in E. }
  exists (report_of f calcRevenue calcBonus ss ps rs),
    (mkHeap (dataset ss ps rs) (ranked f calcRevenue calcBonus ss ps rs)), sorted.*1.
  split; [by apply run_ok|]. split; [|split; [|split]].
  - unfold sorted. rewrite Array_sort_perm, tagged_positions.
    unfold agg. by rewrite aggregated_length.
  - apply Forall2_same_length_lookup. split.
    { unfold report_of. fold agg. rewrite length_imap, <- Hsorted.
      by rewrite !length_fmap. }
    intros i e p He Hi.
    destruct (Hat i p Hi) as (acc & Hti & Hacc).
    unfold report_of in He. fold agg in He. rewrite <- Hsorted in He.
    rewrite list_lookup_imap, list_lookup_fmap, Hti in He. simpl in He.
    injection He as <-.
    destruct (aggregated_lookup f calcRevenue ss ps rs p acc Hacc)
      as (seller & Hseller & Heq).
    exists seller, acc. split; [done|]. split; [done|].
    pose proof (records_frame f calcRevenue (productIndexOf ps)
                  (filter (fun r => sellerIndexOf (newStats <$> ss)
                                      !! Purchase.seller_id r = Some p) rs)
                  (newStats seller)) as Hframe.
    cbv zeta in Hframe. rewrite <- Heq in Hframe.
    destruct Hframe as (Hid & Hname & _).
    destruct f; simpl; by rewrite ?Hid, ?Hname.
  - rewrite (report_view Report.profit (toFixed2 ∘ Stats.profit)) by done.
    rewrite list_fmap_compose, (ranked_view Stats.profit) by done.
    apply StronglySorted_rounded, sorted_profits.
  - intros i j pi pj acci accj Hij Hi Hj Hacci Haccj.
    destruct (Hat i pi Hi) as (ai & Hti & Hai).
    destruct (Hat j pj Hj) as (aj & Htj & Haj).
    fold agg in Hacci, Haccj.
    assert (ai = acci) as -> by congruence.
    assert (aj = accj) as -> by congruence.
    pose proof (sublist_of_lookups sorted i j _ _ Hti Htj Hij) as Hsub.
    split.
    + apply (sorted_pair (not_below key) sorted (pi, acci) (pj, accj)); [|done].
      apply Array_sort_sorted.
    + intros Heq.
      apply (tagged_pair_ascending agg (pi, acci) (pj, accj)).
      by apply (Array_sort_ties key).
Qed.

Lemma report_sorted_by_profit_stably_witness :
  ∃ report h' (order : list nat),
    analyzeSalesData part_000
      (strategies Part000.calculateSimpleRevenue Part000.calculateBonusByProfit)
      (mkHeap (dataset [alexey; mikhail] [chair; lamp]
                 [discounted_sale; mixed_sale; orphan_sale]) [])
    = (Return report, h')
    ∧ order ≡ₚ seq 0 (length [alexey; mikhail])
    ∧ Forall2
        (fun e j =>
           ∃ seller acc,
             [alexey; mikhail] !! j = Some seller
             ∧ aggregated part_000 Part000.calculateSimpleRevenue
                 [alexey; mikhail] [chair; lamp]
                 [discounted_sale; mixed_sale; orphan_sale] !! j = Some acc
             ∧ Report.seller_id e = Seller.id seller
             ∧ Report.name e
               = Seller.first_name seller +:+ " " +:+ Seller.last_name seller
             ∧ Report.profit e = toFixed2 (Stats.profit acc))
        report order
    ∧ StronglySorted (flip Qle) (Report.profit <$> report)
    ∧ ∀ i j pi pj acci accj,
        (i < j)%nat →
        order !! i = Some pi → order !! j = Some pj →
        aggregated part_000 Part000.calculateSimpleRevenue
          [alexey; mikhail] [chair; lamp]
          [discounted_sale; mixed_sale; orphan_sale] !! pi = Some acci →
        aggregated part_000 Part000.calculateSimpleRevenue
          [alexey; mikhail] [chair; lamp]
          [discounted_sale; mixed_sale; orphan_sale] !! pj = Some accj →
        Stats.profit accj <= Stats.profit acci
        ∧ (Stats.profit acci == Stats.profit accj → (pi < pj)%nat).
Proof.
  apply (report_sorted_by_profit_stably part_000);
    [done|done|done|plain_identifiers].
Defined.



(** X18.  For a well-formed dataset whose identifiers name no member of
    [Object.prototype] and two strategy functions, each entry of the report
    carries the top products of the accumulator at its rank: at most 10 of
    them, in descending order of quantity, and they are the first 10 of a
    descending arrangement of all the (sku, quantity) pairs of that
    accumulator's [products_sold]. *)
Theorem top_products_first_ten (f : SourceFile) (calcRevenue : RevenueFn)
    (calcBonus : BonusFn) (ss : list Seller.t) (ps : list Product.t)
    (rs : list Purchase.t) (old : list Stats.t) :
  ss ≠ [] → ps ≠ [] → rs ≠ [] →
  plain_dataset ss ps rs →
  ∃ report h',
    analyzeSalesData f (strategies calcRevenue calcBonus)
      (mkHeap (dataset ss ps rs) old) = (Return report, h')
    ∧ Forall2
        (fun e s =>
           Report.seller_id e = Stats.id s
           ∧ ∃ top all,
               Report.top_products e = Some top
               ∧ (length top ≤ 10)%nat
               ∧ StronglySorted (not_below TopProduct.quantity) top
               ∧ all ≡ₚ (fun p => TopProduct.mk p.1 p.2) <$> Stats.products_sold s
               ∧ StronglySorted (not_below TopProduct.quantity) all
               ∧ top = take 10 all)
        report (sellerStats h').
Proof.
  intros Hs Hp Hr Hids. eexists _, _. split; [by apply run_ok|]. simpl.
  unfold report_of, ranked. apply Forall2_imap. intros i s _. simpl.
  split; [done|].
  destruct (topProducts_spec (Stats.products_sold s)) as (all & Hperm & Hsorted & Htop).
  exists (topProducts (Stats.products_sold s)), all.
  split; [done|]. split; [apply topProducts_length|].
  split; [apply topProducts_sorted|]. done.
Qed.

Lemma top_products_first_ten_witness :
  ∃ report h',
    analyzeSalesData main_js
      (strategies Src.calculateSimpleRevenue Src.calculateBonusByProfit)
      (mkHeap (dataset [alexey; mikhail] [chair; lamp]
                 [discounted_sale; mixed_sale; orphan_sale]) [])
    = (Return report, h')
    ∧ Forall2
        (fun e s =>
           Report.seller_id e = Stats.id s
           ∧ ∃ top all,
               Report.top_products e = Some top
               ∧ (length top ≤ 10)%nat
               ∧ StronglySorted (not_below TopProduct.quantity) top
               ∧ all ≡ₚ (fun p => TopProduct.mk p.1 p.2) <$> Stats.products_sold s
               ∧ StronglySorted (not_below TopProduct.quantity) all
               ∧ top = take 10 all)
        report (sellerStats h').
Proof.
  apply (top_products_first_ten main_js); [done|done|done|plain_identifiers].
Defined.
